(** * The VFS request dispatcher of osjs-server ([src/utils/vfs.js])

    A shallow embedding of the module's helpers ([sanitize],
    [validateGroups], [getPrefix], [checkReadOnly], [getAdapter],
    [resolveMountpoint]) and of the exported [request] handler, followed by
    the properties of the dispatcher that the specification states.

    Modelling conventions.
    - A JavaScript string is a [string]; one character stands for one code
      unit below 256.
    - An object used as a table ([errorCodes], [provider.adapters], an entry
      of [attributes.groups]) is a [gmap] over its own keys; an object whose
      key order is observed ([fields], [files]) is an association list in
      insertion order.
    - A synchronous [throw] is the [Throw] case of [result]; a promise is a
      function from the history of effects to the extended history and the
      settled value. *)

From Stdlib Require Import ZArith NArith Ascii String List Lia.
From stdpp Require Import base option list gmap strings.

Open Scope string_scope.

(** ** Strings and the regular expressions of the module *)

Definition is_slash (c : ascii) : bool := Ascii.eqb c "/".

Definition is_colon (c : ascii) : bool := Ascii.eqb c ":".

(** The class [\w], that is [[A-Za-z0-9_]]. *)
Definition is_word (c : ascii) : bool :=
  let n := N_of_ascii c in
  ((48 <=? n) && (n <=? 57) || (65 <=? n) && (n <=? 90)
   || (n =? 95) || (97 <=? n) && (n <=? 122))%N.

(** The characters that [.] does not match: line feed and carriage return
    (U+2028 and U+2029 lie outside the characters modelled). *)
Definition is_line_terminator (c : ascii) : bool :=
  let n := N_of_ascii c in ((n =? 10) || (n =? 13))%N.

(** [s.replace(/\/+/g, '/')]: every maximal run of slashes becomes one. *)
Fixpoint collapse_slashes (s : string) : string :=
  match s with
  | EmptyString => EmptyString
  | String c s' =>
      if is_slash c then
        match s' with
        | String c' _ =>
            if is_slash c' then collapse_slashes s'
            else String c (collapse_slashes s')
        | EmptyString => String c EmptyString
        end
      else String c (collapse_slashes s')
  end.

(** The longest prefix whose characters satisfy [p], and the rest. *)
Fixpoint span (p : ascii -> bool) (s : string) : string * string :=
  match s with
  | EmptyString => (EmptyString, EmptyString)
  | String c s' =>
      if p c then let '(a, b) := span p s' in (String c a, b)
      else (EmptyString, s)
  end.

(** The match of [s] against the expression of [sanitize]: at the start of
    the input one or more [\w] (first group), a colon, then any characters
    up to the first line terminator (second group). The result is the two
    groups, or nothing when the expression does not match. *)
Definition match_mount_path (s : string) : option (string * string) :=
  match span is_word s with
  | (String c name, String d rest) =>
      if is_colon d
      then Some (String c name, fst (span (fun x => negb (is_line_terminator x)) rest))
      else None
  | _ => None
  end.

(** [s.split(sep)] for a separator of one character. *)
Fixpoint split (sep : ascii) (s : string) : list string :=
  match s with
  | EmptyString => [EmptyString]
  | String c s' =>
      if Ascii.eqb c sep then EmptyString :: split sep s'
      else match split sep s' with
           | x :: xs => String c x :: xs
           | [] => [String c EmptyString]
           end
  end.

(** [arr.join(sep)]. *)
Fixpoint join (sep : string) (l : list string) : string :=
  match l with
  | [] => ""
  | x :: xs => match xs with [] => x | _ :: _ => x +:+ sep +:+ join sep xs end
  end.

(** ** Values, errors and results *)

(** A field value: a string, or [undefined] for an absent property. *)
Inductive jsval := JUndefined | JString (s : string).

(** [String(v)]. *)
Definition js_String (v : jsval) : string :=
  match v with JUndefined => "undefined" | JString s => s end.

(** The [code] property of an error. *)
Inductive errcode := CUndefined | CNumber (n : Z) | CString (s : string).

Record jserror := JsError {
  err_name : string;
  err_message : string;
  err_code : errcode
}.

(** [Error.prototype.toString]. *)
Definition error_toString (e : jserror) : string :=
  if String.eqb (err_name e) "" then err_message e
  else if String.eqb (err_message e) "" then err_name e
  else err_name e +:+ ": " +:+ err_message e.

(** [new VFSError(message, code)]: the class does not set [name]. *)
Definition VFSError (message : string) (code : Z) : jserror :=
  JsError "Error" message (CNumber code).

(** The [TypeError] the engine raises on a property read of [undefined];
    the message is the one of the V8 releases of the time. *)
Definition TypeError_undefined (property : string) : jserror :=
  JsError "TypeError"
    ("Cannot read property '" +:+ property +:+ "' of undefined") CUndefined.

(** [new Error(e)]: the message is [String(e)], and no [code] is copied. *)
Definition new_Error (e : jserror) : jserror :=
  JsError "Error" (error_toString e) CUndefined.

Inductive result (A : Type) := Ok (a : A) | Throw (e : jserror).
Arguments Ok {A} a.
Arguments Throw {A} e.

#[global] Instance result_ret : MRet result := fun A a => Ok a.

#[global] Instance result_bind : MBind result := fun A B k r =>
  match r with Ok a => k a | Throw e => Throw e end.

(** What a promise settles to. *)
Inductive settled (A : Type) := Fulfilled (a : A) | Rejected (e : jserror).
Arguments Fulfilled {A} a.
Arguments Rejected {A} e.

(** ** [errorCodes] and [respondError] *)

Definition errorCodes : gmap string Z :=
  {[ "ENOENT" := 404%Z; "EACCES" := 401%Z ]}.

(** [v || d] for a looked-up number [v]. *)
Definition or_default (v : option Z) (d : Z) : Z :=
  match v with
  | Some n => if Z.eqb n 0 then d else n
  | None => d
  end.

(** The key a [code] that is not a number is coerced to. *)
Definition code_key (c : errcode) : string :=
  match c with
  | CString s => s
  | _ => "undefined"
  end.

(** What [res.status(code).json({error: ...})] sends. *)
Record error_response := ErrorResponse {
  resp_status : Z;
  resp_error : string
}.

Definition respondError (error : jserror) : error_response :=
  let code :=
    match err_code error with
    | CNumber n => n
    | c => or_default (errorCodes !! code_key c) 400
    end in
  ErrorResponse code (error_toString error).

(** ** Mountpoints, adapters and the provider *)

(** An entry of [attributes.groups]: a group name, or an object from method
    names to the groups that method requires. *)
Inductive group_entry :=
| GroupName (g : string)
| GroupMap (m : gmap string (list string)).

(** A mountpoint. [mount_adapter] is the [adapter] property ([None] when it
    is absent), [mount_groups] is [attributes.groups || []] and
    [mount_readOnly] the truth value of [attributes.readOnly]. *)
Record mountpoint := Mountpoint {
  mount_name : string;
  mount_adapter : option string;
  mount_groups : list group_entry;
  mount_readOnly : bool
}.

(** An adapter object: its identity and the names of its methods. *)
Record adapter := Adapter {
  adapter_ref : nat;
  adapter_methods : gset string
}.

Record provider := Provider {
  mountpoints : list mountpoint;
  adapters : gmap string adapter
}.

#[global] Instance group_entry_eq_dec : EqDecision group_entry.
Proof. solve_decision. Defined.

#[global] Instance mountpoint_eq_dec : EqDecision mountpoint.
Proof. solve_decision. Defined.

#[global] Instance adapter_eq_dec : EqDecision adapter.
Proof. solve_decision. Defined.

#[global] Instance jsval_eq_dec : EqDecision jsval.
Proof. solve_decision. Defined.

(** The request fields, in the order of [Object.keys]. *)
Definition fields := list (string * jsval).

(** [fields[key]]. *)
Fixpoint field_get (f : fields) (key : string) : jsval :=
  match f with
  | [] => JUndefined
  | (k, v) :: f' => if String.eqb k key then v else field_get f' key
  end.

(** [fields[key] = v] for a key the object already has. *)
Fixpoint field_set (f : fields) (key : string) (v : jsval) : fields :=
  match f with
  | [] => []
  | (k, w) :: f' =>
      if String.eqb k key then (k, v) :: f' else (k, w) :: field_set f' key v
  end.

(** The [ro] argument of a route: a plain value, taken by its truth value,
    or a function of the fields. *)
Inductive readonly_override :=
| RoValue (b : bool)
| RoFunction (f : fields -> jsval).

(** ** [validateGroups] *)

(** [arr.every(g => compare.indexOf(g) !== -1)]. *)
Definition all (arr compare : list string) : bool :=
  forallb (fun g => bool_decide (g ∈ compare)) arr.

(** [typeof g === 'string'], and the string itself. *)
Definition group_name (g : group_entry) : option string :=
  match g with GroupName n => Some n | GroupMap _ => None end.

(** [typeof g === 'string' ? false : (method in g)]. *)
Definition has_method (method : string) (g : group_entry) : bool :=
  match g with
  | GroupName _ => false
  | GroupMap m => bool_decide (is_Some (m !! method))
  end.

(** [methodGroups[method]], for an entry found by [has_method]. *)
Definition method_groups (method : string) (g : group_entry) : list string :=
  match g with
  | GroupName _ => []
  | GroupMap m => default [] (m !! method)
  end.

Definition validateGroups
    (userGroups : list string) (method : string) (m : mountpoint) : bool :=
  let groups := mount_groups m in
  if negb (Nat.eqb (length groups) 0) then
    let namedGroups := omap group_name groups in
    let methodGroups := List.find (has_method method) groups in
    let namedValid :=
      if negb (Nat.eqb (length namedGroups) 0)
      then all namedGroups userGroups else true in
    let methodValid :=
      match methodGroups with
      | Some g => all (method_groups method g) userGroups
      | None => true
      end in
    namedValid && methodValid
  else true.

(** ** [getPrefix] and [checkReadOnly] *)

(** [String(str).split(':')[0]]; [split] never yields the empty array. *)
Definition getPrefix (str : jsval) : string :=
  match split ":" (js_String str) with
  | x :: _ => x
  | [] => "undefined"
  end.

Definition checkReadOnly
    (ro : readonly_override) (m : mountpoint) (f : fields) : bool :=
  if mount_readOnly m then
    match ro with
    | RoFunction fn => String.eqb (getPrefix (fn f)) (mount_name m)
    | RoValue b => b
    end
  else false.

(** ** [getAdapter] *)

Definition getAdapter (p : provider) (m : mountpoint) : option adapter :=
  match mount_adapter m with
  | Some a => if String.eqb a "" then adapters p !! "system" else adapters p !! a
  | None => adapters p !! "system"
  end.

(** ** The dispatcher

    Three things the module imports are parameters of the embedding: the
    [sanitize-filename] package, the set of names under which
    [../vfs/methods] exports a handler, and the values the adapters
    produce. *)

Section Dispatcher.

Variable sanitizeFilename : string -> string.
Variable vfsMethods : gset string.
Variable V : Type.

(** *** [sanitize] *)

(** When the expression does not match, [name] and [str] are [undefined]
    and [str.split] raises a [TypeError]. *)
Definition sanitize (filename : string) : result string :=
  match match_mount_path (collapse_slashes filename) with
  | Some (name, str) =>
      let sane :=
        collapse_slashes (join "/" (map sanitizeFilename (split "/" str))) in
      Ok (name +:+ ":" +:+ sane)
  | None => Throw (TypeError_undefined "split")
  end.

(** *** [resolveMountpoint] *)

Definition known : list string := ["path"; "from"; "root"].

Definition resolveMountpoint (p : provider)
    (endpoint : string) (f : fields) (userGroups : list string)
    (ro : readonly_override) : result (adapter * mountpoint) :=
  let field := List.find (fun key => bool_decide (key ∈ known)) (map fst f) in
  let prefix := getPrefix (field_get f (default "undefined" field)) in
  let mountpoint :=
    if negb (String.eqb prefix "")
    then List.find (fun m => String.eqb (mount_name m) prefix) (mountpoints p)
    else None in
  match mountpoint with
  | None => Throw (VFSError ("Mountpoint not found for '" +:+ prefix +:+ "'") 403)
  | Some m =>
      if checkReadOnly ro m f then
        Throw (VFSError ("Mountpoint '" +:+ prefix +:+ " is read-only'") 403)
      else if negb (validateGroups userGroups endpoint m) then
        Throw (VFSError ("Permission was denied for '" +:+ endpoint
                         +:+ "' in '" +:+ prefix +:+ "'") 403)
      else
        let invalid :=
          VFSError ("VFS Endpoint '" +:+ endpoint
                    +:+ " was not valid for this mountpoint.'") 401 in
        if negb (bool_decide (endpoint ∈ vfsMethods)) then Throw invalid
        else
          match getAdapter p m with
          | None => Throw (TypeError_undefined endpoint)
          | Some a =>
              if negb (bool_decide (endpoint ∈ adapter_methods a))
              then Throw invalid
              else Ok (a, m)
          end
  end.

(** *** Adapter calls and promises *)

(** An entry of [files]: a temporary file of the form parser, with its
    path, or the buffer read from another adapter. *)
Inductive file := TempFile (path : string) | Buffer (ab : V).

(** [file.path]. *)
Definition file_path (f : file) : jsval :=
  match f with TempFile path => JString path | Buffer _ => JUndefined end.

Definition files := list (string * file).

(** One invocation
    [vfsMethods[method](req, res, fields, files)(core, adapter, mountpoint)]. *)
Record call := Call {
  call_method : string;
  call_fields : fields;
  call_files : files;
  call_adapter : adapter;
  call_mount : mountpoint
}.

(** The effects of a request, in order: handler invocations, and
    [fs.unlink] of an uploaded temporary file. *)
Inductive event := Invoke (c : call) | FsUnlink (path : jsval).

(** Modelled from the spec: the handlers of [../vfs/methods] and the
    adapters behind them. An invocation returns a deferred result that is
    fulfilled with a value or rejected with the storage layer's error; the
    outcome may depend on everything done before. *)
Definition world := list event -> call -> settled V.

Variable w : world.

Definition promise (A : Type) := list event -> list event * settled A.

Definition fulfil {A} (a : A) : promise A := fun h => (h, Fulfilled a).

Definition reject {A} (e : jserror) : promise A := fun h => (h, Rejected e).

(** [p.then(k)]. *)
Definition and_then {A B} (p : promise A) (k : A -> promise B) : promise B :=
  fun h =>
    match p h with
    | (h', Fulfilled a) => k a h'
    | (h', Rejected e) => (h', Rejected e)
    end.

(** The value a request resolves to: an adapter's value, or [true]. *)
Inductive jsresult := JValue (v : V) | JTrue.

(** The inner [request(method, fields, files)(adapter, mountpoint)]. *)
Definition invoke (method : string) (f : fields) (fl : files)
    (target : adapter * mountpoint) : promise V :=
  fun h =>
    let c := Call method f fl (fst target) (snd target) in
    ((h ++ [Invoke c])%list, w h c).

(** *** The body of the [try] block *)

Definition is_composite (endpoint : string) : bool :=
  bool_decide (endpoint ∈ ["rename"; "copy"]).

(** The read, write and unlink pipeline between two adapters. *)
Definition transfer (endpoint : string) (f : fields)
    (src dst : adapter * mountpoint) : promise jsresult :=
  and_then
    (and_then
       (invoke "readfile" [("path", field_get f "from")] [] src)
       (fun ab =>
          invoke "writefile" [("path", field_get f "to")]
                 [("upload", Buffer ab)] dst))
    (fun _ =>
       if String.eqb endpoint "rename"
       then and_then (invoke "unlink" [("path", field_get f "from")] [] src)
                     (fun _ => fulfil JTrue)
       else fulfil JTrue).

Definition dispatch (p : provider) (endpoint : string)
    (ro : readonly_override) (userGroups : list string)
    (f : fields) (fl : files) : result (promise jsresult) :=
  let resolve := resolveMountpoint p in
  promise ←
    (if is_composite endpoint then
       src ← resolve "readfile" [("path", field_get f "from")]
                     userGroups (RoValue false);
       dst ← resolve "writefile" [("path", field_get f "to")]
                     userGroups (RoValue true);
       let sameAdapter :=
         bool_decide (mount_adapter (snd src) = mount_adapter (snd dst)) in
       if negb sameAdapter then Ok (Some (transfer endpoint f src dst))
       else Ok None
     else Ok None);
  match promise with
  | Some pr => Ok pr
  | None =>
      target ← resolve endpoint f userGroups ro;
      Ok (and_then (invoke endpoint f fl target) (fun v => fulfil (JValue v)))
  end.

(** *** The exported [request] *)

(** What [parseFields] settles to. *)
Inductive parsed := Parsed (f : fields) (fl : files) | ParseFailed (e : jserror).

Definition path_keys : list string := ["path"; "from"; "to"; "root"].

(** The loop over [path_keys] that sanitizes the fields in place; the first
    [sanitize] that throws ends it. *)
Fixpoint sanitizeFields (keys : list string) (f : fields) : result fields :=
  match keys with
  | [] => Ok f
  | key :: keys' =>
      match field_get f key with
      | JUndefined => sanitizeFields keys' f
      | JString s =>
          s' ← sanitize s;
          sanitizeFields keys' (field_set f key (JString s'))
      end
  end.

Inductive response :=
| Piped (r : jsresult)
| Json (r : jsresult)
| ErrorJson (e : error_response).

(** How a request ends: with a response, or with the handler's promise
    rejected and nothing sent. *)
Inductive outcome := Responded (r : response) | Unhandled (e : jserror).

(** The handler [request(provider)(endpoint, ro)(req, res)], as a function
    of the caller's groups ([req.session.user.groups]) and of what
    [parseFields(req)] settles to. A throw of the sanitizing loop happens
    outside the [try] and rejects the promise the handler returns. A throw
    inside the [try] becomes [Promise.reject(new Error(e))]. The last
    [then] removes the uploaded files after a [writefile] and sends the
    result; the last [catch] logs the error and sends [respondError]. *)
Definition request (p : provider) (endpoint : string) (ro : readonly_override)
    (userGroups : list string) (input : parsed) : list event * outcome :=
  match input with
  | ParseFailed e => ([], Unhandled e)
  | Parsed f0 fl =>
      match sanitizeFields path_keys f0 with
      | Throw e => ([], Unhandled e)
      | Ok f =>
          let promise :=
            match dispatch p endpoint ro userGroups f fl with
            | Ok pr => pr
            | Throw e => reject (new_Error e)
            end in
          match promise [] with
          | (h, Fulfilled r) =>
              let cleanup :=
                if String.eqb endpoint "writefile"
                then map (fun entry => FsUnlink (file_path (snd entry))) fl
                else [] in
              ((h ++ cleanup)%list,
               Responded (if String.eqb endpoint "readfile"
                          then Piped r else Json r))
          | (h, Rejected error) =>
              (h, Responded (ErrorJson (respondError error)))
          end
      end
  end.

End Dispatcher.

Arguments Call {V}.
Arguments file_path {V}.
Arguments call_method {V}.
Arguments call_fields {V}.
Arguments call_files {V}.
Arguments call_adapter {V}.
Arguments call_mount {V}.
Arguments fulfil {V A}.
Arguments reject {V A}.
Arguments and_then {V A B}.
Arguments Invoke {V}.
Arguments FsUnlink {V}.
Arguments TempFile {V}.
Arguments Buffer {V}.
Arguments JValue {V}.
Arguments JTrue {V}.
Arguments Parsed {V}.
Arguments ParseFailed {V}.
Arguments Piped {V}.
Arguments Json {V}.
Arguments ErrorJson {V}.
Arguments Responded {V}.
Arguments Unhandled {V}.

(** ** The [sanitize-filename] package

    The module applies [sanitizeFilename] without options. The package
    (release 1.6) then runs five replacements by the empty string, in this
    order, and truncates the result to 255 bytes of UTF-8:
    - [illegalRe]: each of the characters / ? < > \ : * | and the double quote;
    - [controlRe]: each character in 0x00-0x1f and 0x80-0x9f;
    - [reservedRe]: a name made of dots only;
    - [windowsReservedRe]: con, prn, aux, nul, com0-com9 or lpt0-lpt9, in
      any case, alone or followed by a dot and anything;
    - [windowsTrailingRe]: the dots and spaces that end the name. *)

Fixpoint string_filter (p : ascii -> bool) (s : string) : string :=
  match s with
  | EmptyString => EmptyString
  | String c s' =>
      if p c then String c (string_filter p s') else string_filter p s'
  end.

Fixpoint string_forall (p : ascii -> bool) (s : string) : bool :=
  match s with
  | EmptyString => true
  | String c s' => p c && string_forall p s'
  end.

Definition illegal (c : ascii) : bool :=
  bool_decide (N_of_ascii c ∈ [47; 63; 60; 62; 92; 58; 42; 124; 34]%N).

Definition control (c : ascii) : bool :=
  let n := N_of_ascii c in ((n <=? 31) || (128 <=? n) && (n <=? 159))%N.

Definition is_dot (c : ascii) : bool := Ascii.eqb c ".".

Definition reserved (s : string) : bool :=
  negb (String.eqb s "") && string_forall is_dot s.

Definition lower (c : ascii) : ascii :=
  let n := N_of_ascii c in
  if ((65 <=? n) && (n <=? 90))%N then ascii_of_N (n + 32) else c.

Definition is_digit (c : ascii) : bool :=
  let n := N_of_ascii c in ((48 <=? n) && (n <=? 57))%N.

(** The optional extension of [windowsReservedRe]: nothing, or a dot and
    the rest of the name. *)
Definition extension (s : string) : bool :=
  match s with
  | EmptyString => true
  | String c s' => is_dot c && string_forall (fun x => negb (is_line_terminator x)) s'
  end.

Definition windowsReserved (s : string) : bool :=
  match s with
  | String a (String b (String c rest)) =>
      let stem := String (lower a) (String (lower b) (String (lower c) "")) in
      bool_decide (stem ∈ ["con"; "prn"; "aux"; "nul"]) && extension rest
      || bool_decide (stem ∈ ["com"; "lpt"])
         && match rest with
            | String d rest' => is_digit d && extension rest'
            | EmptyString => false
            end
  | _ => false
  end.

Fixpoint strip_trailing (s : string) : string :=
  match s with
  | EmptyString => EmptyString
  | String c s' =>
      let t := strip_trailing s' in
      if String.eqb t "" && (is_dot c || Ascii.eqb c " ") then "" else String c t
  end.

(** [truncate(s, budget)]: the longest prefix of whole characters that
    fits in [budget] bytes of UTF-8. *)
Fixpoint truncate (budget : nat) (s : string) : string :=
  match s with
  | EmptyString => EmptyString
  | String c s' =>
      let n := if (N_of_ascii c <? 128)%N then 1 else 2 in
      if Nat.leb n budget then String c (truncate (budget - n) s') else ""
  end.

Definition sanitize_filename (input : string) : string :=
  let s1 := string_filter (fun c => negb (illegal c)) input in
  let s2 := string_filter (fun c => negb (control c)) s1 in
  let s3 := if reserved s2 then "" else s2 in
  let s4 := if windowsReserved s3 then "" else s3 in
  let s5 := strip_trailing s4 in
  truncate 255 s5.

(** ** A small installation, for the worked examples

    Two adapters; [home] and [tmp] on the system adapter ([tmp] names it,
    [home] leaves it out), [cloud] and [archive] on the other one;
    [archive] is read-only and [cloud] asks for groups. *)

Definition system_adapter : adapter :=
  Adapter 0 {[ "readfile"; "writefile"; "unlink"; "rename"; "copy"; "readdir" ]}.

Definition cloud_adapter : adapter :=
  Adapter 1 {[ "readfile"; "writefile"; "unlink"; "rename"; "copy" ]}.

Definition home_mount : mountpoint := Mountpoint "home" None [] false.

Definition tmp_mount : mountpoint := Mountpoint "tmp" (Some "system") [] false.

Definition cloud_mount : mountpoint :=
  Mountpoint "cloud" (Some "cloud")
    [GroupName "users"; GroupMap {[ "writefile" := ["editors"] ]}] false.

Definition archive_mount : mountpoint :=
  Mountpoint "archive" (Some "cloud") [] true.

Definition example_provider : provider :=
  Provider [home_mount; tmp_mount; cloud_mount; archive_mount]
    {[ "system" := system_adapter; "cloud" := cloud_adapter ]}.

Definition example_methods : gset string :=
  {[ "readfile"; "writefile"; "unlink"; "rename"; "copy"; "readdir"; "stat" ]}.

(** A second installation: [vault], on the cloud adapter, is read-only and
    asks for the group [admins] for [unlink]. *)
Definition vault_mount : mountpoint :=
  Mountpoint "vault" (Some "cloud") [GroupMap {[ "unlink" := ["admins"] ]}] true.

Definition guarded_provider : provider :=
  Provider [home_mount; vault_mount]
    {[ "system" := system_adapter; "cloud" := cloud_adapter ]}.

(** A world in which every invocation is fulfilled with the name of the
    method invoked. *)
Definition echo_world : world string :=
  fun _ c => Fulfilled (call_method c).

(** A world in which [writefile] is rejected with a storage error and
    everything else is fulfilled. *)
Definition failing_write_world : world string :=
  fun _ c =>
    if String.eqb (call_method c) "writefile"
    then Rejected (JsError "Error" "EACCES: permission denied" (CString "EACCES"))
    else Fulfilled (call_method c).

(** * Vocabulary of the properties *)

(** [s] contains no occurrence of [c]. *)
Definition lacks (c : ascii) (s : string) : Prop :=
  string_forall (fun x => negb (Ascii.eqb x c)) s = true.

(** [c] is not a line terminator. *)
Definition not_terminator (c : ascii) : bool := negb (is_line_terminator c).

(** [s] begins with one or more word characters and a colon. *)
Definition has_mount_prefix (s : string) : Prop :=
  exists n rest,
    s = n +:+ ":" +:+ rest /\ n <> "" /\ string_forall is_word n = true.

(** The segments of a path that [sanitize] hands to the filename
    sanitizer. *)
Definition path_segments (p : string) : list string :=
  match match_mount_path (collapse_slashes p) with
  | Some (_, str) => split "/" str
  | None => []
  end.

(** [s] has no two slashes in a row. *)
Fixpoint single_slashes (s : string) : bool :=
  match s with
  | EmptyString => true
  | String c s' =>
      match s' with
      | String c' _ => negb (is_slash c && is_slash c')
      | EmptyString => true
      end && single_slashes s'
  end.

(** The prefix [resolveMountpoint] works with. *)
Definition resolved_prefix (f : fields) : string :=
  getPrefix (field_get f
    (default "undefined"
       (List.find (fun key => bool_decide (key ∈ known)) (map fst f)))).

(** The mountpoint [resolveMountpoint] finds, if any. *)
Definition resolved_mount (p : provider) (f : fields) : option mountpoint :=
  if negb (String.eqb (resolved_prefix f) "")
  then List.find (fun m => String.eqb (mount_name m) (resolved_prefix f))
         (mountpoints p)
  else None.

(** [method_entry method groups arr]: the first mapping entry of [groups]
    that has [method] among its keys lists [arr] under it. *)
Inductive method_entry (method : string) :
    list group_entry -> list string -> Prop :=
| entry_here mp arr rest :
    mp !! method = Some arr ->
    method_entry method (GroupMap mp :: rest) arr
| entry_after_name g rest arr :
    method_entry method rest arr ->
    method_entry method (GroupName g :: rest) arr
| entry_after_map mp rest arr :
    mp !! method = None ->
    method_entry method rest arr ->
    method_entry method (GroupMap mp :: rest) arr.

(** The status the specification assigns to an error code. *)
Definition table_status (c : errcode) : Z :=
  match c with
  | CNumber n => n
  | CString s =>
      if String.eqb s "ENOENT" then 404
      else if String.eqb s "EACCES" then 401
      else 400
  | CUndefined => 400
  end.

Section Course.

Variable V : Type.
Variable w : world V.

(** The three invocations of a transfer, as the specification names them. *)
Definition read_call (f : fields) (src : adapter * mountpoint) : call V :=
  Call "readfile" [("path", field_get f "from")] [] (fst src) (snd src).

Definition write_call (f : fields) (dst : adapter * mountpoint) (ab : V) : call V :=
  Call "writefile" [("path", field_get f "to")] [("upload", Buffer ab)]
    (fst dst) (snd dst).

Definition unlink_call (f : fields) (src : adapter * mountpoint) : call V :=
  Call "unlink" [("path", field_get f "from")] [] (fst src) (snd src).

Definition failed (e : jserror) : outcome V :=
  Responded (ErrorJson (respondError e)).

(** The course of a transfer according to the specification: read, write,
    and for a rename unlink; the first step that fails ends it and its
    error is the response; otherwise the response is [true]. *)
Definition transfer_course (endpoint : string) (f : fields)
    (src dst : adapter * mountpoint) : list (event V) * outcome V :=
  let c1 := read_call f src in
  match w [] c1 with
  | Rejected e => ([Invoke c1], failed e)
  | Fulfilled ab =>
      let c2 := write_call f dst ab in
      match w [Invoke c1] c2 with
      | Rejected e => ([Invoke c1; Invoke c2], failed e)
      | Fulfilled _ =>
          if String.eqb endpoint "rename" then
            let c3 := unlink_call f src in
            match w [Invoke c1; Invoke c2] c3 with
            | Rejected e => ([Invoke c1; Invoke c2; Invoke c3], failed e)
            | Fulfilled _ =>
                ([Invoke c1; Invoke c2; Invoke c3], Responded (Json JTrue))
            end
          else ([Invoke c1; Invoke c2], Responded (Json JTrue))
      end
  end.

(** A history holds an invocation of [readfile], [writefile] or [unlink]. *)
Definition decomposed (h : list (event V)) : Prop :=
  exists c, Invoke c ∈ h /\ call_method c ∈ ["readfile"; "writefile"; "unlink"].

(** The uploaded files a fulfilled [writefile] removes. *)
Definition cleanup (endpoint : string) (fl : files V) : list (event V) :=
  if String.eqb endpoint "writefile"
  then map (fun entry => FsUnlink (file_path (snd entry))) fl
  else [].

(** The course of a request that is handed to one adapter: one invocation
    of the operation itself; its value is piped for [readfile] and sent as
    JSON otherwise, after the uploaded files of a [writefile] are removed;
    its error is the response and nothing is removed. *)
Definition single_course (endpoint : string) (f : fields) (fl : files V)
    (target : adapter * mountpoint) : list (event V) * outcome V :=
  let c := Call endpoint f fl (fst target) (snd target) in
  match w [] c with
  | Fulfilled v =>
      ((Invoke c :: cleanup endpoint fl),
       Responded (if String.eqb endpoint "readfile"
                  then Piped (JValue v) else Json (JValue v)))
  | Rejected e => ([Invoke c], failed e)
  end.

(** An invocation that the resolver has cleared for the caller: its adapter
    and mountpoint were resolved under its own method, or it is the
    [unlink] of a rename, on the pair resolved for [readfile]. *)
Definition cleared (methods : gset string) (p : provider)
    (ug : list string) (endpoint : string) (c : call V) : Prop :=
  exists e' f' ro',
    resolveMountpoint methods p e' f' ug ro' = Ok (call_adapter c, call_mount c)
    /\ (call_method c = e'
        \/ (call_method c = "unlink" /\ e' = "readfile" /\ endpoint = "rename")).

End Course.

Arguments cleanup {V}.
Arguments single_course {V}.
Arguments cleared {V}.
Arguments read_call {V}.
Arguments write_call {V}.
Arguments unlink_call {V}.
Arguments failed {V}.
Arguments decomposed {V}.
Arguments transfer_course {V}.

(** * Properties *)

(** ** [split] and [join] *)

Lemma split_is_cons sep s : exists x xs, split sep s = x :: xs.
Proof.
  induction s as [|c s IH]; simpl; [by eauto|].
  destruct (Ascii.eqb c sep); [by eauto|].
  destruct IH as (x & xs & ->). eauto.
Qed.

Lemma join_cons_cons sep x y l :
  join sep (x :: y :: l) = x +:+ sep +:+ join sep (y :: l).
Proof. reflexivity. Qed.

Lemma join_split sep s : join (String sep "") (split sep s) = s.
Proof.
  induction s as [|c s IH]; [reflexivity|].
  simpl split. destruct (Ascii.eqb_spec c sep) as [->|Hne].
  - destruct (split_is_cons sep s) as (x & xs & E).
    rewrite E in *. rewrite join_cons_cons, IH. reflexivity.
  - destruct (split_is_cons sep s) as (x & xs & E).
    rewrite E in *. destruct xs as [|y xs].
    + simpl in *. by rewrite IH.
    + rewrite join_cons_cons in *. simpl. by rewrite <- IH.
Qed.

Lemma split_lacks sep s : Forall (lacks sep) (split sep s).
Proof.
  induction s as [|c s IH]; simpl.
  - by constructor.
  - destruct (Ascii.eqb c sep) eqn:E.
    + by constructor.
    + destruct (split_is_cons sep s) as (x & xs & Es).
      rewrite Es in *. inversion IH; subst.
      constructor; [|done]. unfold lacks in *. simpl. by rewrite E.
Qed.

Lemma split_lacking sep s : lacks sep s -> split sep s = [s].
Proof.
  unfold lacks. induction s as [|c s IH]; simpl; [done|].
  intros [Hc Hs]%andb_prop. apply negb_true_iff in Hc. rewrite Hc.
  by rewrite IH.
Qed.

Lemma split_app_sep sep x s :
  lacks sep x -> split sep (x +:+ String sep s) = x :: split sep s.
Proof.
  unfold lacks. induction x as [|c x IH]; simpl.
  - intros _. by rewrite Ascii.eqb_refl.
  - intros [Hc Hx]%andb_prop. apply negb_true_iff in Hc. rewrite Hc.
    by rewrite IH.
Qed.

Lemma split_join sep l :
  l <> [] -> Forall (lacks sep) l -> split sep (join (String sep "") l) = l.
Proof.
  induction l as [|x l IH]; [done|]. intros _ Hl.
  inversion Hl as [|? ? Hx Hl']; subst.
  destruct l as [|y l].
  - simpl. by apply split_lacking.
  - rewrite join_cons_cons.
    change (String sep "" +:+ ?z) with (String sep z).
    rewrite split_app_sep by done. f_equal. by apply IH.
Qed.

(** ** [getPrefix] *)

Lemma getPrefix_lacks v : lacks ":" (getPrefix v).
Proof.
  unfold getPrefix. pose proof (split_lacks ":" (js_String v)) as H.
  destruct (split ":" (js_String v)); [done|]. by inversion H.
Qed.

Lemma getPrefix_lacking s : lacks ":" s -> getPrefix (JString s) = s.
Proof. intros H. unfold getPrefix. simpl. by rewrite split_lacking. Qed.

Lemma getPrefix_before_colon pre rest :
  lacks ":" pre -> getPrefix (JString (pre +:+ ":" +:+ rest)) = pre.
Proof.
  intros H. unfold getPrefix. simpl js_String.
  change (":" +:+ rest) with (String ":" rest).
  by rewrite split_app_sep.
Qed.

Lemma getPrefix_decompose s :
  s = getPrefix (JString s)
  \/ exists rest, s = getPrefix (JString s) +:+ ":" +:+ rest.
Proof.
  unfold getPrefix. simpl js_String.
  pose proof (join_split ":" s) as J.
  destruct (split_is_cons ":" s) as (x & l & E). rewrite E in *.
  destruct l as [|y l]; simpl in J.
  - by left.
  - right. eexists. symmetry. exact J.
Qed.

(** ** [resolveMountpoint] *)

Lemma resolved_prefix_path v : resolved_prefix [("path", v)] = getPrefix v.
Proof. reflexivity. Qed.

Ltac string_head H := cbv [String.append VFSError TypeError_undefined] in H.

Lemma resolve_ok_inv methods p endpoint f ug ro a m :
  resolveMountpoint methods p endpoint f ug ro = Ok (a, m) ->
  resolved_mount p f = Some m
  /\ checkReadOnly ro m f = false
  /\ validateGroups ug endpoint m = true
  /\ endpoint ∈ methods
  /\ getAdapter p m = Some a
  /\ endpoint ∈ adapter_methods a.
Proof.
  unfold resolveMountpoint, resolved_mount, resolved_prefix.
  destruct (if negb _ then _ else _) as [m'|]; [|done].
  destruct (checkReadOnly ro m' f) eqn:Hro; [done|].
  destruct (validateGroups ug endpoint m') eqn:Hg; [|done]. simpl.
  case_bool_decide; [|done]. simpl.
  destruct (getAdapter p m') as [a'|] eqn:Ha; [|done].
  case_bool_decide; [|done]. simpl.
  intros [= <- <-]. done.
Qed.

Lemma resolve_ok_intro methods p endpoint f ug ro a m :
  resolved_mount p f = Some m ->
  checkReadOnly ro m f = false ->
  validateGroups ug endpoint m = true ->
  endpoint ∈ methods ->
  getAdapter p m = Some a ->
  endpoint ∈ adapter_methods a ->
  resolveMountpoint methods p endpoint f ug ro = Ok (a, m).
Proof.
  unfold resolveMountpoint, resolved_mount, resolved_prefix.
  intros -> -> -> Hm -> Ha. simpl.
  rewrite !bool_decide_eq_true_2 by done. done.
Qed.

Lemma resolve_not_found methods p endpoint f ug ro :
  resolveMountpoint methods p endpoint f ug ro
    = Throw (VFSError ("Mountpoint not found for '" +:+ resolved_prefix f +:+ "'") 403)
  <-> resolved_mount p f = None.
Proof.
  unfold resolveMountpoint, resolved_mount. fold (resolved_prefix f).
  destruct (if negb _ then _ else _) as [m|]; [|done].
  split; [|done]. intros H. exfalso.
  destruct (checkReadOnly ro m f); [string_head H; discriminate|].
  destruct (negb (validateGroups ug endpoint m)); [string_head H; discriminate|].
  destruct (negb (bool_decide (endpoint ∈ methods))); [string_head H; discriminate|].
  destruct (getAdapter p m); [|string_head H; discriminate].
  destruct (negb _); [string_head H; discriminate|discriminate].
Qed.

Lemma resolved_mount_none p f :
  resolved_mount p f = None
  <-> resolved_prefix f = ""
      \/ Forall (fun m => mount_name m <> resolved_prefix f) (mountpoints p).
Proof.
  unfold resolved_mount.
  destruct (String.eqb_spec (resolved_prefix f) "") as [E|E]; simpl.
  - split; [by left|done].
  - rewrite Forall_forall. split.
    + intros H. right. intros m Hm Hn.
      eapply find_none in H; [|by apply list_elem_of_In].
      simpl in H. apply String.eqb_neq in H. done.
    + intros [?|H]; [done|].
      destruct (List.find _ _) as [m|] eqn:F; [|done].
      apply find_some in F as [Hin Hn]. apply String.eqb_eq in Hn.
      exfalso. eapply H; [|done]. by apply list_elem_of_In.
Qed.

(** C7 (amended). [getPrefix] returns the part of the path before its first
    colon. For a path without a colon that is the whole path, and resolving
    such a path fails with "Mountpoint not found" exactly when the path is
    empty or no mountpoint of the registry bears it as its name. *)
Theorem getPrefix_whole_path_without_colon (s : string) :
  (forall pre rest,
     lacks ":" pre -> s = pre +:+ ":" +:+ rest -> getPrefix (JString s) = pre)
  /\ (lacks ":" s ->
      getPrefix (JString s) = s
      /\ forall methods p endpoint ug ro,
           resolveMountpoint methods p endpoint [("path", JString s)] ug ro
             = Throw (VFSError ("Mountpoint not found for '" +:+ s +:+ "'") 403)
           <-> s = "" \/ Forall (fun m => mount_name m <> s) (mountpoints p)).
Proof.
  split; [intros pre rest Hpre ->; by apply getPrefix_before_colon|].
  intros H. pose proof (getPrefix_lacking s H) as E. split; [done|].
  intros methods p endpoint ug ro.
  pose proof (resolve_not_found methods p endpoint [("path", JString s)] ug ro) as R.
  pose proof (resolved_mount_none p [("path", JString s)]) as N.
  rewrite resolved_prefix_path, E in R, N. by rewrite R.
Qed.

(** The path ["home"] has no colon; its prefix is ["home"], and it resolves
    whenever a mountpoint of that name is registered. *)
Lemma getPrefix_whole_path_witness :
  lacks ":" "home" /\ getPrefix (JString "home") = "home".
Proof.
  split; [reflexivity|].
  apply (proj2 (getPrefix_whole_path_without_colon "home")). reflexivity.
Defined.

(** C7 (as stated) fails: a path without a colon has a non-empty prefix and
    is resolved to the mountpoint of that name. *)
Lemma prefix_of_colonless_path_resolves :
  lacks ":" "home"
  /\ getPrefix (JString "home") <> ""
  /\ resolveMountpoint example_methods example_provider "readdir"
       [("path", JString "home")] [] (RoValue false)
     = Ok (system_adapter, home_mount).
Proof. split; [reflexivity|]. split; [discriminate|]. by vm_compute. Qed.

(** ** [validateGroups] *)

Lemma all_spec arr compare :
  all arr compare = true <-> forall g, g ∈ arr -> g ∈ compare.
Proof.
  unfold all. rewrite forallb_forall. split.
  - intros H g Hg. apply list_elem_of_In, H in Hg. by apply bool_decide_eq_true in Hg.
  - intros H g Hg. apply bool_decide_eq_true, H. by apply list_elem_of_In.
Qed.

Lemma named_groups_spec (groups : list group_entry) (g : string) :
  g ∈ omap group_name groups <-> GroupName g ∈ groups.
Proof.
  rewrite list_elem_of_omap. split.
  - intros ([n|mp] & Hin & E); simpl in E; [|done]. by injection E as ->.
  - intros H. by exists (GroupName g).
Qed.

Lemma method_entry_find method groups arr :
  method_entry method groups arr
  <-> exists e, List.find (has_method method) groups = Some e
                /\ method_groups method e = arr.
Proof.
  split.
  - induction 1 as [mp arr rest E|g rest arr _ IH|mp rest arr E _ IH]; simpl.
    + rewrite bool_decide_eq_true_2 by (by rewrite E).
      exists (GroupMap mp). simpl. by rewrite E.
    + done.
    + rewrite bool_decide_eq_false_2; [done|]. rewrite E. by intros [? ?].
  - intros (e & F & <-). induction groups as [|[g|mp] rest IH]; simpl in F.
    + done.
    + apply entry_after_name. by apply IH.
    + case_bool_decide as Hk.
      * injection F as <-. destruct Hk as [arr Hk]. simpl. rewrite Hk.
        by apply entry_here.
      * apply entry_after_map; [|by apply IH].
        destruct (mp !! method) eqn:E; [|done]. exfalso. apply Hk. by eexists.
Qed.

Lemma validateGroups_unfold userGroups method m :
  validateGroups userGroups method m
  = all (omap group_name (mount_groups m)) userGroups
    && match List.find (has_method method) (mount_groups m) with
       | Some g => all (method_groups method g) userGroups
       | None => true
       end.
Proof.
  unfold validateGroups. destruct (mount_groups m) as [|g0 groups]; [done|].
  change (negb (Nat.eqb (length (g0 :: groups)) 0)) with true. cbv iota.
  by destruct (omap group_name (g0 :: groups)).
Qed.

(** C4. A mountpoint that declares no groups admits every caller. In
    general [validateGroups] admits the caller exactly when every group the
    mountpoint names outright is among the caller's groups and, if a mapping
    entry has the method as a key, every group that (first such) entry
    lists under the method is among them too; without such an entry the
    second condition is void. *)
Theorem validateGroups_all_named_and_method_groups
    (userGroups : list string) (method : string) (m : mountpoint) :
  (mount_groups m = [] -> validateGroups userGroups method m = true)
  /\ (validateGroups userGroups method m = true
      <-> (forall g, GroupName g ∈ mount_groups m -> g ∈ userGroups)
          /\ (forall arr, method_entry method (mount_groups m) arr ->
                forall g, g ∈ arr -> g ∈ userGroups)).
Proof.
  split; [unfold validateGroups; by intros ->|].
  rewrite validateGroups_unfold, andb_true_iff, all_spec.
  assert (Hnamed :
    (forall g, g ∈ omap group_name (mount_groups m) -> g ∈ userGroups)
    <-> (forall g, GroupName g ∈ mount_groups m -> g ∈ userGroups)).
  { split; intros H g Hg; apply H; by apply named_groups_spec. }
  assert (Hmethod :
    match List.find (has_method method) (mount_groups m) with
    | Some g => all (method_groups method g) userGroups
    | None => true
    end = true
    <-> (forall arr, method_entry method (mount_groups m) arr ->
           forall g, g ∈ arr -> g ∈ userGroups)).
  { split.
    - intros H arr (e & F & <-)%method_entry_find. rewrite F in H.
      by apply all_spec.
    - intros H. destruct (List.find _ _) as [e|] eqn:F; [|done].
      apply all_spec, H, method_entry_find. by exists e. }
  tauto.
Qed.

(** With [{writefile: ['editors']}] and the bare group [users], a caller in
    [users] only reads but does not write; one in both does both; a
    mountpoint without groups admits a caller without any. *)
Lemma validateGroups_witness :
  validateGroups [] "writefile" home_mount = true
  /\ validateGroups ["users"] "readfile" cloud_mount = true
  /\ validateGroups ["users"] "writefile" cloud_mount = false
  /\ validateGroups ["editors"] "writefile" cloud_mount = false
  /\ validateGroups ["users"; "editors"] "writefile" cloud_mount = true.
Proof.
  split.
  - by apply (proj1 (validateGroups_all_named_and_method_groups
                       [] "writefile" home_mount)).
  - by vm_compute.
Defined.

(** ** [checkReadOnly] *)

(** C5. On a mountpoint whose [readOnly] attribute is falsy the check never
    blocks. On a read-only mountpoint, a function given as override blocks
    exactly when the prefix of the value it computes from the fields is the
    mountpoint's name, and any other override is itself the decision. *)
Theorem checkReadOnly_decision
    (ro : readonly_override) (m : mountpoint) (f : fields) :
  (mount_readOnly m = false -> checkReadOnly ro m f = false)
  /\ (mount_readOnly m = true ->
      match ro with
      | RoFunction fn =>
          checkReadOnly ro m f = true <-> getPrefix (fn f) = mount_name m
      | RoValue b => checkReadOnly ro m f = b
      end).
Proof.
  unfold checkReadOnly. split; intros ->; [done|].
  destruct ro as [b|fn]; [done|]. apply String.eqb_eq.
Qed.

(** On the read-only mountpoint [archive], the override that reads the
    destination from the field [to] blocks a copy into it and lets a copy
    out of it pass. *)
Lemma checkReadOnly_witness :
  checkReadOnly (RoFunction (fun f => field_get f "to")) archive_mount
    [("from", JString "home:/a"); ("to", JString "archive:/a")] = true
  /\ checkReadOnly (RoFunction (fun f => field_get f "to")) archive_mount
       [("from", JString "archive:/a"); ("to", JString "home:/a")] = false
  /\ checkReadOnly (RoValue true) home_mount [("path", JString "home:/a")] = false.
Proof.
  split; [|split].
  - by apply (proj2 (checkReadOnly_decision
                       (RoFunction (fun f => field_get f "to")) archive_mount _)).
  - by vm_compute.
  - by apply (proj1 (checkReadOnly_decision (RoValue true) home_mount _)).
Defined.

(** ** [respondError] *)

Lemma respondError_table e :
  respondError e = ErrorResponse (table_status (err_code e)) (error_toString e).
Proof.
  unfold respondError. f_equal.
  destruct (err_code e) as [|n|s]; [done|done|]. simpl.
  unfold errorCodes.
  destruct (String.eqb_spec s "ENOENT") as [->|H1]; [done|].
  destruct (String.eqb_spec s "EACCES") as [->|H2]; [done|].
  rewrite lookup_insert_ne by done. by rewrite lookup_singleton_ne.
Qed.

Lemma respondError_wrapped e :
  respondError (new_Error e)
  = ErrorResponse 400 (error_toString (new_Error e)).
Proof. reflexivity. Qed.

Section RequestProperties.

Variable sanitizeFilename : string -> string.
Variable methods : gset string.
Variable V : Type.
Variable w : world V.

Local Abbreviation request' := (request sanitizeFilename methods V w).
Local Abbreviation dispatch' := (dispatch methods V w).
Local Abbreviation sanitizeFields' := (sanitizeFields sanitizeFilename).
Local Abbreviation resolve' := (resolveMountpoint methods).

Lemma request_rejected p endpoint ro ug f0 fl f pr h e :
  sanitizeFields' path_keys f0 = Ok f ->
  dispatch' p endpoint ro ug f fl = Ok pr ->
  pr [] = (h, Rejected e) ->
  request' p endpoint ro ug (Parsed f0 fl)
  = (h, Responded (ErrorJson (respondError e))).
Proof.
  intros Hs Hd Hr. unfold request. fold path_keys.
  by rewrite Hs, Hd, Hr.
Qed.

Lemma request_thrown p endpoint ro ug f0 fl f e :
  sanitizeFields' path_keys f0 = Ok f ->
  dispatch' p endpoint ro ug f fl = Throw e ->
  request' p endpoint ro ug (Parsed f0 fl)
  = ([], Responded (ErrorJson
           (ErrorResponse 400 (error_toString (new_Error e))))).
Proof.
  intros Hs Hd. unfold request. fold path_keys.
  by rewrite Hs, Hd.
Qed.

(** C8. When the promise of a dispatched request is rejected with an error
    of an adapter, the response carries the error's numeric code as status
    if it has one, 404 for the code [ENOENT], 401 for [EACCES] and 400 for
    any other code, and its body is [{error: error.toString()}]. *)
Theorem adapter_error_status p endpoint ro ug f0 fl f pr h e :
  sanitizeFields' path_keys f0 = Ok f ->
  dispatch' p endpoint ro ug f fl = Ok pr ->
  pr [] = (h, Rejected e) ->
  request' p endpoint ro ug (Parsed f0 fl)
  = (h, Responded (ErrorJson
          (ErrorResponse
             match err_code e with
             | CNumber n => n
             | CString s =>
                 if String.eqb s "ENOENT" then 404
                 else if String.eqb s "EACCES" then 401
                 else 400
             | CUndefined => 400
             end
             (error_toString e)))).
Proof.
  intros Hs Hd Hr. rewrite (request_rejected _ _ _ _ _ _ _ _ _ _ Hs Hd Hr).
  by rewrite respondError_table.
Qed.

End RequestProperties.

(** A [writefile] that the storage layer rejects with [EACCES] is answered
    with status 401. *)
Lemma adapter_error_status_witness :
  request sanitize_filename example_methods string failing_write_world
    example_provider "writefile" (RoValue true) []
    (Parsed [("path", JString "home:/notes.txt")] [("upload", TempFile "/tmp/u1")])
  = ([Invoke (Call "writefile" [("path", JString "home:/notes.txt")]
                [("upload", TempFile "/tmp/u1")] system_adapter home_mount)],
     Responded (ErrorJson
       (ErrorResponse 401 "Error: EACCES: permission denied"))).
Proof.
  refine (adapter_error_status sanitize_filename example_methods string
            failing_write_world example_provider "writefile" (RoValue true) []
            _ _ _ _ _
            (JsError "Error" "EACCES: permission denied" (CString "EACCES"))
            _ _ _);
    vm_compute; reflexivity.
Defined.

(** The errors [resolveMountpoint] throws, by class. *)
Lemma resolve_throw_classes methods p endpoint f ug ro e :
  resolveMountpoint methods p endpoint f ug ro = Throw e ->
  let prefix := resolved_prefix f in
  e = VFSError ("Mountpoint not found for '" +:+ prefix +:+ "'") 403
  \/ e = VFSError ("Mountpoint '" +:+ prefix +:+ " is read-only'") 403
  \/ e = VFSError ("Permission was denied for '" +:+ endpoint
                   +:+ "' in '" +:+ prefix +:+ "'") 403
  \/ e = VFSError ("VFS Endpoint '" +:+ endpoint
                   +:+ " was not valid for this mountpoint.'") 401
  \/ e = TypeError_undefined endpoint.
Proof.
  unfold resolveMountpoint. fold (resolved_prefix f). simpl.
  destruct (if negb _ then _ else _) as [m|]; [|intros [= <-]; tauto].
  destruct (checkReadOnly ro m f); [intros [= <-]; tauto|].
  destruct (negb (validateGroups ug endpoint m)); [intros [= <-]; tauto|].
  destruct (negb (bool_decide (endpoint ∈ methods))); [intros [= <-]; tauto|].
  destruct (getAdapter p m); [|intros [= <-]; tauto].
  destruct (negb _); [intros [= <-]; tauto|done].
Qed.

(** C1 (the code departs from it). Four requests on the example
    installation, one per class of resolution failure. In each the resolver
    throws the [VFSError] of its class, with code 403, 403, 403 and 401, and
    in each the response sent has status 400: the [catch] of the handler
    rejects with [new Error(e)], which carries no [code]. *)
Theorem resolution_failures_answered_400 :
  let request' := request sanitize_filename example_methods string echo_world
                    example_provider in
  let resolve := resolveMountpoint example_methods example_provider in
  (resolve "readdir" [("path", JString "ghost:/x")] [] (RoValue false)
     = Throw (VFSError "Mountpoint not found for 'ghost'" 403)
   /\ request' "readdir" (RoValue false) []
        (Parsed [("path", JString "ghost:/x")] [])
      = ([], Responded (ErrorJson (ErrorResponse 400
               "Error: Error: Mountpoint not found for 'ghost'"))))
  /\ (resolve "writefile" [("path", JString "archive:/a.txt")] [] (RoValue true)
        = Throw (VFSError "Mountpoint 'archive is read-only'" 403)
      /\ request' "writefile" (RoValue true) []
           (Parsed [("path", JString "archive:/a.txt")] [])
         = ([], Responded (ErrorJson (ErrorResponse 400
                  "Error: Error: Mountpoint 'archive is read-only'"))))
  /\ (resolve "writefile" [("path", JString "cloud:/a.txt")] ["users"] (RoValue true)
        = Throw (VFSError "Permission was denied for 'writefile' in 'cloud'" 403)
      /\ request' "writefile" (RoValue true) ["users"]
           (Parsed [("path", JString "cloud:/a.txt")] [])
         = ([], Responded (ErrorJson (ErrorResponse 400
                  "Error: Error: Permission was denied for 'writefile' in 'cloud'"))))
  /\ (resolve "readdir" [("path", JString "archive:/")] [] (RoValue false)
        = Throw (VFSError
                   "VFS Endpoint 'readdir was not valid for this mountpoint.'" 401)
      /\ request' "readdir" (RoValue false) []
           (Parsed [("path", JString "archive:/")] [])
         = ([], Responded (ErrorJson (ErrorResponse 400
                  "Error: Error: VFS Endpoint 'readdir was not valid for this mountpoint.'")))).
Proof. repeat split; by vm_compute. Qed.

(** ** Rename and copy *)

Lemma is_composite_cases endpoint :
  is_composite endpoint = true -> endpoint = "rename" \/ endpoint = "copy".
Proof.
  unfold is_composite. intros H%bool_decide_eq_true.
  apply elem_of_cons in H as [->|H]; [by left|].
  apply elem_of_cons in H as [->|H]; [by right|].
  by apply elem_of_nil in H.
Qed.

Lemma getAdapter_same_name p m1 m2 :
  mount_adapter m1 = mount_adapter m2 -> getAdapter p m1 = getAdapter p m2.
Proof. unfold getAdapter. by intros ->. Qed.

Section CompositeProperties.

Variable sanitizeFilename : string -> string.
Variable methods : gset string.
Variable V : Type.
Variable w : world V.

Local Abbreviation request' := (request sanitizeFilename methods V w).
Local Abbreviation dispatch' := (dispatch methods V w).
Local Abbreviation sanitizeFields' := (sanitizeFields sanitizeFilename).
Local Abbreviation resolve' := (resolveMountpoint methods).
Local Abbreviation transfer_course' := (transfer_course w).

Lemma dispatch_composite p endpoint ro ug f fl src dst :
  is_composite endpoint = true ->
  resolve' p "readfile" [("path", field_get f "from")] ug (RoValue false) = Ok src ->
  resolve' p "writefile" [("path", field_get f "to")] ug (RoValue true) = Ok dst ->
  dispatch' p endpoint ro ug f fl
  = if bool_decide (mount_adapter (snd src) = mount_adapter (snd dst))
    then target ← resolve' p endpoint f ug ro;
         Ok (and_then (invoke V w endpoint f fl target)
                      (fun v => fulfil (JValue v)))
    else Ok (transfer V w endpoint f src dst).
Proof.
  intros Hc Hs Hd. unfold dispatch. rewrite Hc, Hs, Hd. simpl.
  by case_bool_decide.
Qed.

Lemma transfer_run endpoint f src dst :
  match transfer V w endpoint f src dst [] with
  | (h, Fulfilled r) => (h, Responded (Json r))
  | (h, Rejected e) => (h, failed e)
  end = transfer_course' endpoint f src dst.
Proof.
  unfold transfer, transfer_course, and_then, invoke, fulfil.
  fold (@read_call V f src). simpl.
  destruct (w [] (read_call f src)) as [ab|e]; [|done].
  fold (@write_call V f dst ab).
  destruct (w [Invoke (read_call f src)] (write_call f dst ab)) as [r|e]; [|done].
  destruct (String.eqb endpoint "rename"); [|done].
  fold (@unlink_call V f src). simpl.
  by destruct (w _ (unlink_call f src)).
Qed.

Lemma request_transfer p endpoint ro ug f0 fl f src dst :
  is_composite endpoint = true ->
  sanitizeFields' path_keys f0 = Ok f ->
  resolve' p "readfile" [("path", field_get f "from")] ug (RoValue false) = Ok src ->
  resolve' p "writefile" [("path", field_get f "to")] ug (RoValue true) = Ok dst ->
  mount_adapter (snd src) <> mount_adapter (snd dst) ->
  request' p endpoint ro ug (Parsed f0 fl) = transfer_course' endpoint f src dst.
Proof.
  intros Hc Hf Hs Hd Hne. unfold request. fold path_keys. rewrite Hf.
  rewrite (dispatch_composite _ _ _ _ _ _ _ _ Hc Hs Hd).
  rewrite bool_decide_eq_false_2 by done.
  rewrite <- (transfer_run endpoint f src dst).
  destruct (transfer V w endpoint f src dst []) as [h [r|e]]; [|done].
  destruct (is_composite_cases _ Hc) as [-> | ->]; simpl; by rewrite app_nil_r.
Qed.

(** C2. A rename or copy whose source and destination resolve to different
    adapters runs [readfile] on the source adapter, then [writefile] on the
    destination adapter with the buffer read as [upload], then, for a
    rename only, [unlink] on the source adapter, and answers [true]. A step
    that is rejected ends the run: nothing is invoked after it, nothing is
    undone, and its error is the response. *)
Theorem cross_adapter_transfer_course p endpoint ro ug f0 fl f src dst :
  is_composite endpoint = true ->
  sanitizeFields' path_keys f0 = Ok f ->
  resolve' p "readfile" [("path", field_get f "from")] ug (RoValue false) = Ok src ->
  resolve' p "writefile" [("path", field_get f "to")] ug (RoValue true) = Ok dst ->
  fst src <> fst dst ->
  request' p endpoint ro ug (Parsed f0 fl) = transfer_course' endpoint f src dst.
Proof.
  intros Hc Hf Hs Hd Hne. apply request_transfer; try done.
  intros E. apply Hne.
  destruct src as [sa sm], dst as [da dm]. simpl in *.
  apply resolve_ok_inv in Hs as (_ & _ & _ & _ & Hsa & _).
  apply resolve_ok_inv in Hd as (_ & _ & _ & _ & Hda & _).
  rewrite (getAdapter_same_name p sm dm E) in Hsa. congruence.
Qed.

Lemma request_same_adapter p endpoint ro ug f0 fl f src dst :
  is_composite endpoint = true ->
  sanitizeFields' path_keys f0 = Ok f ->
  resolve' p "readfile" [("path", field_get f "from")] ug (RoValue false) = Ok src ->
  resolve' p "writefile" [("path", field_get f "to")] ug (RoValue true) = Ok dst ->
  mount_adapter (snd src) = mount_adapter (snd dst) ->
  match resolve' p endpoint f ug ro with
  | Ok target =>
      fst (request' p endpoint ro ug (Parsed f0 fl))
      = [Invoke (Call endpoint f fl (fst target) (snd target))]
  | Throw e =>
      request' p endpoint ro ug (Parsed f0 fl)
      = ([], Responded (ErrorJson
               (ErrorResponse 400 (error_toString (new_Error e)))))
  end.
Proof.
  intros Hc Hf Hs Hd E. unfold request. fold path_keys. rewrite Hf.
  rewrite (dispatch_composite _ _ _ _ _ _ _ _ Hc Hs Hd).
  rewrite bool_decide_eq_true_2 by done.
  destruct (resolve' p endpoint f ug ro) as [target|e]; [|done].
  simpl. unfold and_then, invoke, fulfil. simpl.
  destruct (w [] _) as [v|e]; [|done].
  destruct (is_composite_cases _ Hc) as [-> | ->]; by simpl.
Qed.

Lemma resolve_same_prefix p e1 e2 f1 f2 ug1 ug2 ro1 ro2 t1 t2 :
  resolved_prefix f1 = resolved_prefix f2 ->
  resolve' p e1 f1 ug1 ro1 = Ok t1 ->
  resolve' p e2 f2 ug2 ro2 = Ok t2 ->
  t1 = t2.
Proof.
  intros E H1 H2. destruct t1 as [a1 m1], t2 as [a2 m2].
  apply resolve_ok_inv in H1 as (M1 & _ & _ & _ & A1 & _).
  apply resolve_ok_inv in H2 as (M2 & _ & _ & _ & A2 & _).
  unfold resolved_mount in M1, M2. rewrite E in M1.
  assert (m1 = m2) as -> by congruence. congruence.
Qed.

(** C3 (amended). For a rename or copy whose source and destination both
    resolve, the request is decomposed into [readfile], [writefile] and
    [unlink] exactly when the [adapter] attributes of the two mountpoints
    differ. When they are equal nothing is decomposed: the request is
    resolved once more under its own name; if that fails nothing is
    invoked, and otherwise the one invocation is that of the operation
    itself, on the adapter so resolved, which is the source adapter when
    [from] is the first of the known fields of the request. *)
Theorem decomposition_iff_adapter_attributes_differ
    p endpoint ro ug f0 fl f src dst :
  is_composite endpoint = true ->
  sanitizeFields' path_keys f0 = Ok f ->
  resolve' p "readfile" [("path", field_get f "from")] ug (RoValue false) = Ok src ->
  resolve' p "writefile" [("path", field_get f "to")] ug (RoValue true) = Ok dst ->
  let run := request' p endpoint ro ug (Parsed f0 fl) in
  (decomposed (fst run) <-> mount_adapter (snd src) <> mount_adapter (snd dst))
  /\ (mount_adapter (snd src) = mount_adapter (snd dst) ->
      match resolve' p endpoint f ug ro with
      | Ok target =>
          fst run = [Invoke (Call endpoint f fl (fst target) (snd target))]
          /\ (List.find (fun key => bool_decide (key ∈ known)) (map fst f)
                = Some "from" -> target = src)
      | Throw e =>
          run = ([], Responded (ErrorJson
                       (ErrorResponse 400 (error_toString (new_Error e)))))
      end).
Proof.
  intros Hc Hf Hs Hd run.
  assert (Hsame : mount_adapter (snd src) = mount_adapter (snd dst) ->
    match resolve' p endpoint f ug ro with
    | Ok target =>
        fst run = [Invoke (Call endpoint f fl (fst target) (snd target))]
        /\ (List.find (fun key => bool_decide (key ∈ known)) (map fst f)
              = Some "from" -> target = src)
    | Throw e =>
        run = ([], Responded (ErrorJson
                     (ErrorResponse 400 (error_toString (new_Error e)))))
    end).
  { intros E.
    pose proof (request_same_adapter p endpoint ro ug f0 fl f src dst
                  Hc Hf Hs Hd E) as R.
    destruct (resolve' p endpoint f ug ro) as [target|e] eqn:Ht; [|done].
    split; [done|]. intros Hk.
    eapply resolve_same_prefix; [|exact Ht|exact Hs].
    unfold resolved_prefix. rewrite Hk. reflexivity. }
  split; [|done]. split.
  - intros (c & Hin & Hm) E. specialize (Hsame E).
    destruct (resolve' p endpoint f ug ro) as [target|e].
    + destruct Hsame as [Hrun _]. rewrite Hrun in Hin.
      apply list_elem_of_singleton in Hin. injection Hin as ->. simpl in Hm.
      destruct (is_composite_cases _ Hc) as [-> | ->];
        repeat (apply elem_of_cons in Hm as [Hm|Hm]; [done|]);
        by apply elem_of_nil in Hm.
    + rewrite Hsame in Hin. by apply elem_of_nil in Hin.
  - intros Hne. subst run.
    rewrite (request_transfer p endpoint ro ug f0 fl f src dst) by done.
    exists (read_call f src). split; [|simpl; apply list_elem_of_here].
    unfold transfer_course.
    destruct (w [] _) as [ab|e]; [|apply list_elem_of_here].
    destruct (w [_] _) as [r|e]; [|apply list_elem_of_here].
    destruct (String.eqb endpoint "rename"); [|apply list_elem_of_here].
    destruct (w [_; _] _); apply list_elem_of_here.
Qed.

(** C6. In a rename or copy the source is resolved for [readfile] with the
    override [false] and the destination for [writefile] with the override
    [true]. So, once the source has resolved, a destination mountpoint
    that is read-only makes the handler throw the read-only error, of code
    403. And the transfer between mountpoints of different adapter
    attributes goes ahead when the source mountpoint, read-only or not,
    admits the caller for [readfile] on an adapter that has it, and the
    destination mountpoint is not read-only and admits the caller for
    [writefile] on an adapter that has it. *)
Theorem composite_resolution_overrides p endpoint ro ug f fl :
  is_composite endpoint = true ->
  (forall src dm,
     resolve' p "readfile" [("path", field_get f "from")] ug (RoValue false) = Ok src ->
     resolved_mount p [("path", field_get f "to")] = Some dm ->
     mount_readOnly dm = true ->
     dispatch' p endpoint ro ug f fl
     = Throw (VFSError ("Mountpoint '" +:+ getPrefix (field_get f "to")
                        +:+ " is read-only'") 403))
  /\ (forall sa sm da dm,
        resolved_mount p [("path", field_get f "from")] = Some sm ->
        validateGroups ug "readfile" sm = true ->
        "readfile" ∈ methods ->
        getAdapter p sm = Some sa ->
        "readfile" ∈ adapter_methods sa ->
        resolved_mount p [("path", field_get f "to")] = Some dm ->
        mount_readOnly dm = false ->
        validateGroups ug "writefile" dm = true ->
        "writefile" ∈ methods ->
        getAdapter p dm = Some da ->
        "writefile" ∈ adapter_methods da ->
        mount_adapter sm <> mount_adapter dm ->
        dispatch' p endpoint ro ug f fl
        = Ok (transfer V w endpoint f (sa, sm) (da, dm))).
Proof.
  intros Hc. split.
  - intros src dm Hs Hm Hro. unfold dispatch. rewrite Hc, Hs. simpl.
    unfold resolveMountpoint. fold (resolved_prefix [("path", field_get f "to")]).
    unfold resolved_mount in Hm. rewrite Hm.
    unfold checkReadOnly. rewrite Hro. reflexivity.
  - intros sa sm da dm Hsm Hsg Hr Hsa Hsr Hdm Hro Hdg Hw Hda Hdw Hne.
    assert (Hs : resolve' p "readfile" [("path", field_get f "from")] ug
                   (RoValue false) = Ok (sa, sm)).
    { apply resolve_ok_intro; try done. unfold checkReadOnly.
      by destruct (mount_readOnly sm). }
    assert (Hd : resolve' p "writefile" [("path", field_get f "to")] ug
                   (RoValue true) = Ok (da, dm)).
    { apply resolve_ok_intro; try done. unfold checkReadOnly. by rewrite Hro. }
    rewrite (dispatch_composite _ _ _ _ _ _ _ _ Hc Hs Hd).
    by rewrite bool_decide_eq_false_2.
Qed.

End CompositeProperties.

(** A rename from [home] (system adapter) to [cloud] by a caller in both
    groups: three invocations, and [true]. *)
Lemma cross_adapter_transfer_witness :
  request sanitize_filename example_methods string echo_world example_provider
    "rename" (RoValue true) ["users"; "editors"]
    (Parsed [("from", JString "home:/x.txt"); ("to", JString "cloud:/y.txt")] [])
  = ([Invoke (Call "readfile" [("path", JString "home:/x.txt")] []
                system_adapter home_mount);
      Invoke (Call "writefile" [("path", JString "cloud:/y.txt")]
                [("upload", Buffer "readfile")] cloud_adapter cloud_mount);
      Invoke (Call "unlink" [("path", JString "home:/x.txt")] []
                system_adapter home_mount)],
     Responded (Json JTrue)).
Proof.
  refine (eq_trans
    (cross_adapter_transfer_course sanitize_filename example_methods string
       echo_world example_provider "rename" (RoValue true) ["users"; "editors"]
       [("from", JString "home:/x.txt"); ("to", JString "cloud:/y.txt")] []
       [("from", JString "home:/x.txt"); ("to", JString "cloud:/y.txt")]
       (system_adapter, home_mount) (cloud_adapter, cloud_mount) _ _ _ _ _) _);
    try (vm_compute; reflexivity).
  simpl. discriminate.
Defined.

(** C3 (as stated) fails: [home] and [tmp] both resolve to the system
    adapter, [home] by default and [tmp] by name, and a rename between
    them is decomposed all the same. *)
Lemma same_adapter_rename_is_decomposed :
  resolveMountpoint example_methods example_provider "readfile"
    [("path", JString "home:/x.txt")] [] (RoValue false)
  = Ok (system_adapter, home_mount)
  /\ resolveMountpoint example_methods example_provider "writefile"
       [("path", JString "tmp:/y.txt")] [] (RoValue true)
     = Ok (system_adapter, tmp_mount)
  /\ request sanitize_filename example_methods string echo_world example_provider
       "rename" (RoValue true) []
       (Parsed [("from", JString "home:/x.txt"); ("to", JString "tmp:/y.txt")] [])
     = ([Invoke (Call "readfile" [("path", JString "home:/x.txt")] []
                   system_adapter home_mount);
         Invoke (Call "writefile" [("path", JString "tmp:/y.txt")]
                   [("upload", Buffer "readfile")] system_adapter tmp_mount);
         Invoke (Call "unlink" [("path", JString "home:/x.txt")] []
                   system_adapter home_mount)],
        Responded (Json JTrue)).
Proof. repeat split; by vm_compute. Qed.

(** A rename inside [home]: one invocation, of [rename] itself, on the
    source adapter. *)
Lemma decomposition_witness :
  fst (request sanitize_filename example_methods string echo_world
         example_provider "rename" (RoValue true) []
         (Parsed [("from", JString "home:/x.txt"); ("to", JString "home:/y.txt")] []))
  = [Invoke (Call "rename"
               [("from", JString "home:/x.txt"); ("to", JString "home:/y.txt")] []
               system_adapter home_mount)].
Proof.
  pose proof (decomposition_iff_adapter_attributes_differ
    sanitize_filename example_methods string echo_world example_provider
    "rename" (RoValue true) []
    [("from", JString "home:/x.txt"); ("to", JString "home:/y.txt")] []
    [("from", JString "home:/x.txt"); ("to", JString "home:/y.txt")]
    (system_adapter, home_mount) (system_adapter, home_mount)
    eq_refl eq_refl eq_refl eq_refl) as [_ H].
  specialize (H eq_refl). vm_compute in H. destruct H as [H _].
  vm_compute. exact H.
Defined.

(** A copy from [home] into the read-only [archive] throws the read-only
    error; a copy out of [archive] into [home] is transferred. *)
Lemma composite_resolution_witness :
  dispatch example_methods string echo_world example_provider "copy"
    (RoValue true) []
    [("from", JString "home:/a"); ("to", JString "archive:/a")] []
  = Throw (VFSError "Mountpoint 'archive is read-only'" 403)
  /\ dispatch example_methods string echo_world example_provider "copy"
       (RoValue true) []
       [("from", JString "archive:/a"); ("to", JString "home:/a")] []
     = Ok (transfer string echo_world "copy"
             [("from", JString "archive:/a"); ("to", JString "home:/a")]
             (cloud_adapter, archive_mount) (system_adapter, home_mount)).
Proof.
  pose proof (composite_resolution_overrides example_methods string echo_world
                example_provider "copy" (RoValue true) []) as H.
  split.
  - refine (proj1 (H [("from", JString "home:/a"); ("to", JString "archive:/a")]
                     [] eq_refl)
              (system_adapter, home_mount) archive_mount _ _ _);
      vm_compute; reflexivity.
  - refine (proj2 (H [("from", JString "archive:/a"); ("to", JString "home:/a")]
                     [] eq_refl)
              cloud_adapter archive_mount system_adapter home_mount
              _ _ _ _ _ _ _ _ _ _ _ _);
      try (vm_compute; reflexivity); try (by apply bool_decide_eq_true; vm_compute).
    simpl. discriminate.
Defined.

(** ** The regular expressions of [sanitize] *)

Lemma string_forall_app p a b :
  string_forall p (a +:+ b) = string_forall p a && string_forall p b.
Proof. induction a as [|c a IH]; simpl; [done|]. by rewrite IH, andb_assoc. Qed.

Lemma string_forall_impl (p q : ascii -> bool) s :
  (forall c, p c = true -> q c = true) ->
  string_forall p s = true -> string_forall q s = true.
Proof.
  intros Hpq. induction s as [|c s IH]; simpl; [done|].
  intros [Hc Hs]%andb_prop. by rewrite (Hpq c Hc), IH.
Qed.

Lemma collapse_slashes_idempotent s :
  collapse_slashes (collapse_slashes s) = collapse_slashes s.
Proof.
  induction s as [|c s IH]; [done|]. simpl.
  destruct (is_slash c) eqn:Hc.
  - destruct s as [|c' s]; [by simpl; rewrite Hc|].
    destruct (is_slash c') eqn:Hc'; [done|].
    simpl in IH |- *. rewrite Hc' in IH |- *. simpl. rewrite Hc, Hc'.
    simpl in IH. rewrite Hc' in IH. by rewrite IH.
  - simpl. by rewrite Hc, IH.
Qed.

Lemma collapse_slashes_forall p s :
  string_forall p s = true -> string_forall p (collapse_slashes s) = true.
Proof.
  induction s as [|c s IH]; [done|]. simpl.
  intros [Hc Hs]%andb_prop. destruct (is_slash c).
  - destruct s as [|c' s]; [by simpl; rewrite Hc|].
    destruct (is_slash c'); [by apply IH|].
    change (string_forall p (String c (collapse_slashes (String c' s))))
      with (p c && string_forall p (collapse_slashes (String c' s))).
    by rewrite Hc, IH.
  - simpl. by rewrite Hc, IH.
Qed.

(** Collapsing keeps the first segment and drops some of the others. *)
Lemma split_collapse_slashes s :
  exists x xs ys,
    split "/" (collapse_slashes s) = x :: xs
    /\ split "/" s = x :: ys
    /\ xs ⊆ ys.
Proof.
  induction s as [|c s IH]; [by exists "", [], []|].
  destruct IH as (x & xs & ys & E1 & E2 & Hsub). simpl.
  unfold is_slash. destruct (Ascii.eqb c "/") eqn:Hc.
  - destruct s as [|c' s].
    + exists "", [""], [""]. simpl. by rewrite Hc.
    + destruct (Ascii.eqb c' "/") eqn:Hc'.
      * simpl in E2. rewrite Hc' in E2. injection E2 as <- <-.
        exists "", xs, ("" :: split "/" s).
        split; [done|]. split; [by simpl; rewrite Hc'|].
        by apply list_subseteq_cons.
      * exists "", (x :: xs), (x :: ys).
        change (split "/" (String c (collapse_slashes (String c' s))))
          with (if Ascii.eqb c "/"
                then "" :: split "/" (collapse_slashes (String c' s))
                else match split "/" (collapse_slashes (String c' s)) with
                     | y :: l => String c y :: l
                     | [] => [String c ""]
                     end).
        rewrite Hc, E1, E2. split; [done|]. split; [done|].
        by apply list_subseteq_skip.
  - exists (String c x), xs, ys. simpl. by rewrite Hc, E1, E2.
Qed.

Lemma split_collapse_slashes_subseteq s :
  split "/" (collapse_slashes s) ⊆ split "/" s.
Proof.
  destruct (split_collapse_slashes s) as (x & xs & ys & -> & -> & H).
  by apply list_subseteq_skip.
Qed.

Lemma span_all p s : string_forall p s = true -> span p s = (s, "").
Proof.
  induction s as [|c s IH]; simpl; [done|].
  intros [-> Hs]%andb_prop. by rewrite IH.
Qed.

Lemma span_app_stop p a c r :
  string_forall p a = true -> p c = false ->
  span p (a +:+ String c r) = (a, String c r).
Proof.
  intros Ha Hc. induction a as [|x a IH]; simpl in *; [by rewrite Hc|].
  apply andb_prop in Ha as [-> Ha]. by rewrite IH.
Qed.

Lemma span_inv p s a b :
  span p s = (a, b) ->
  s = a +:+ b
  /\ string_forall p a = true
  /\ match b with String c _ => p c = false | EmptyString => True end.
Proof.
  revert a b. induction s as [|c s IH]; simpl; intros a b.
  - by intros [= <- <-].
  - destruct (p c) eqn:Hc.
    + destruct (span p s) as [a' b']. intros [= <- <-].
      destruct (IH a' b' eq_refl) as (-> & Ha & Hb). simpl. by rewrite Hc, Ha.
    + intros [= <- <-]. simpl. by rewrite Hc.
Qed.

Lemma word_not_slash c : is_word c = true -> is_slash c = false.
Proof.
  unfold is_slash. destruct (Ascii.eqb_spec c "/") as [->|]; [by vm_compute|done].
Qed.

Lemma colon_not_word : is_word ":" = false.
Proof. reflexivity. Qed.

Lemma match_mount_path_prefix n rest :
  n <> "" -> string_forall is_word n = true ->
  match_mount_path (n +:+ ":" +:+ rest)
  = Some (n, fst (span (fun x => negb (is_line_terminator x)) rest)).
Proof.
  intros Hn Hw. unfold match_mount_path.
  change (":" +:+ rest) with (String ":" rest).
  rewrite (span_app_stop is_word n ":" rest Hw colon_not_word).
  by destruct n.
Qed.

Lemma match_mount_path_inv s n x :
  match_mount_path s = Some (n, x) ->
  n <> "" /\ string_forall is_word n = true
  /\ string_forall (fun c => negb (is_line_terminator c)) x = true
  /\ exists rest, s = n +:+ ":" +:+ rest.
Proof.
  unfold match_mount_path.
  destruct (span is_word s) as [a b] eqn:E.
  apply span_inv in E as (-> & Ha & _).
  destruct a as [|c a]; [done|]. destruct b as [|d rest]; [done|].
  unfold is_colon. destruct (Ascii.eqb_spec d ":") as [->|]; [|done].
  intros [= <- <-]. split; [done|]. split; [done|]. split; [|by eexists].
  destruct (span _ rest) as [u v] eqn:E. by apply span_inv in E as (_ & Hu & _).
Qed.

Lemma collapse_slashes_word_prefix n r :
  string_forall is_word n = true ->
  collapse_slashes (n +:+ String ":" r) = n +:+ String ":" (collapse_slashes r).
Proof.
  intros Hn. induction n as [|c n IH]; [done|].
  simpl in Hn. apply andb_prop in Hn as [Hc Hn].
  simpl. by rewrite (word_not_slash c Hc), IH.
Qed.

Lemma collapse_slashes_step c c' s :
  collapse_slashes (String c (String c' s))
  = if is_slash c && is_slash c' then collapse_slashes (String c' s)
    else String c (collapse_slashes (String c' s)).
Proof. simpl. by destruct (is_slash c), (is_slash c'). Qed.

Lemma collapse_slashes_head c s :
  exists t, collapse_slashes (String c s) = String c t.
Proof.
  revert c. induction s as [|c' s IH]; intros c.
  - simpl. destruct (is_slash c); by eexists.
  - rewrite collapse_slashes_step. unfold is_slash.
    destruct (Ascii.eqb_spec c "/") as [->|]; [|by eexists].
    destruct (Ascii.eqb_spec c' "/") as [->|]; [|by eexists].
    apply IH.
Qed.

Lemma collapse_slashes_cons_inv a x s :
  is_slash a = false -> collapse_slashes s = String a x ->
  exists s', s = String a s' /\ collapse_slashes s' = x.
Proof.
  intros Ha E. destruct s as [|c s]; [done|].
  destruct (collapse_slashes_head c s) as (t & Et).
  rewrite Et in E. injection E as -> ->.
  exists s. split; [done|]. simpl in Et. rewrite Ha in Et. by injection Et.
Qed.

Lemma collapse_slashes_prefix_inv n r s :
  string_forall is_word n = true ->
  collapse_slashes s = n +:+ String ":" r ->
  exists r', s = n +:+ String ":" r'.
Proof.
  revert s. induction n as [|c n IH]; intros s Hn E.
  - apply collapse_slashes_cons_inv in E as (s' & -> & _); [|done]. by eexists.
  - simpl in Hn. apply andb_prop in Hn as [Hc Hn].
    apply collapse_slashes_cons_inv in E as (s' & -> & E);
      [|by apply word_not_slash].
    destruct (IH s' Hn E) as (r' & ->). by eexists.
Qed.

(** ** [sanitize] *)

Section SanitizeProperties.

Variable sanitizeFilename : string -> string.

Local Abbreviation sanitize' := (sanitize sanitizeFilename).

Lemma sanitize_ok_iff s :
  (exists q, sanitize' s = Ok q) <-> has_mount_prefix s.
Proof.
  unfold sanitize. split.
  - intros (q & H).
    destruct (match_mount_path (collapse_slashes s)) as [[n x]|] eqn:E; [|done].
    apply match_mount_path_inv in E as (Hn & Hw & _ & rest & E).
    apply collapse_slashes_prefix_inv in E as (r' & ->); [|done].
    by exists n, r'.
  - intros (n & rest & -> & Hn & Hw).
    change (":" +:+ rest) with (String ":" rest).
    rewrite collapse_slashes_word_prefix by done.
    change (String ":" ?r) with (":" +:+ r).
    rewrite match_mount_path_prefix by done. by eexists.
Qed.

Lemma sanitize_throws s :
  ~ has_mount_prefix s -> sanitize' s = Throw (TypeError_undefined "split").
Proof.
  intros H. pose proof (sanitize_ok_iff s) as [Hok _]. unfold sanitize in *.
  destruct (match_mount_path (collapse_slashes s)) as [[n x]|]; [|done].
  exfalso. apply H, Hok. by eexists.
Qed.

Lemma join_forall p sep l :
  string_forall p sep = true ->
  Forall (fun x => string_forall p x = true) l ->
  string_forall p (join sep l) = true.
Proof.
  intros Hsep. induction 1 as [|x l Hx Hl IH]; [done|].
  destruct l as [|y l]; [done|].
  rewrite join_cons_cons, !string_forall_app. by rewrite Hx, Hsep, IH.
Qed.

(** C9 (amended). Let the results of the filename sanitizer hold neither a
    slash nor a line terminator. Then for every path on which [sanitize]
    is defined and on whose segments the filename sanitizer is idempotent,
    sanitizing the result again returns it unchanged. *)
Theorem sanitize_idempotent_where_sanitizer_is :
  (forall s, lacks "/" (sanitizeFilename s)) ->
  (forall s, string_forall not_terminator (sanitizeFilename s) = true) ->
  forall p q,
    sanitize' p = Ok q ->
    (forall y, y ∈ path_segments p ->
       sanitizeFilename (sanitizeFilename y) = sanitizeFilename y) ->
    sanitize' q = Ok q.
Proof.
  intros Hslash Hterm p q H Hidem. unfold sanitize, path_segments in *.
  destruct (match_mount_path (collapse_slashes p)) as [[n x]|] eqn:E; [|done].
  injection H as <-.
  apply match_mount_path_inv in E as (Hn & Hw & _ & _).
  set (ts := map sanitizeFilename (split "/" x)).
  assert (Hts : Forall (lacks "/") ts).
  { apply Forall_forall. intros u (y & -> & _)%list_elem_of_fmap. apply Hslash. }
  assert (Hne : ts <> []).
  { unfold ts. destruct (split_is_cons "/" x) as (y & l & ->). done. }
  set (sane := collapse_slashes (join "/" ts)).
  assert (Hfix : collapse_slashes sane = sane)
    by apply collapse_slashes_idempotent.
  assert (Hline : string_forall (fun c => negb (is_line_terminator c)) sane = true).
  { apply collapse_slashes_forall, join_forall; [done|].
    apply Forall_forall. intros u (y & -> & _)%list_elem_of_fmap. apply Hterm. }
  change (":" +:+ sane) with (String ":" sane).
  rewrite collapse_slashes_word_prefix, Hfix by done.
  change (String ":" sane) with (":" +:+ sane).
  rewrite match_mount_path_prefix, span_all by done. simpl.
  assert (Hmap : map sanitizeFilename (split "/" sane) = split "/" sane).
  { rewrite <- (map_id (split "/" sane)) at 2. apply map_ext_in.
    intros u Hu%list_elem_of_In.
    apply (split_collapse_slashes_subseteq (join "/" ts)) in Hu.
    rewrite (split_join "/" ts Hne Hts) in Hu.
    apply list_elem_of_fmap in Hu as (y & -> & Hy). by apply Hidem. }
  by rewrite Hmap, join_split, Hfix.
Qed.

End SanitizeProperties.

Lemma field_get_set_other f k k' v :
  k <> k' -> field_get (field_set f k v) k' = field_get f k'.
Proof.
  intros Hk. induction f as [|[k0 u] f IH]; [done|]. simpl.
  destruct (String.eqb_spec k0 k) as [->|]; simpl.
  - by destruct (String.eqb_spec k k').
  - by rewrite IH.
Qed.

Lemma sanitizeFields_throws sf keys f key s :
  key ∈ keys -> field_get f key = JString s -> ~ has_mount_prefix s ->
  sanitizeFields sf keys f = Throw (TypeError_undefined "split").
Proof.
  intros Hin Hget Hs. revert f Hget.
  induction keys as [|k keys IH]; intros f Hget; [by apply elem_of_nil in Hin|].
  simpl. destruct (decide (key = k)) as [->|Hne].
  - rewrite Hget. by rewrite sanitize_throws.
  - apply elem_of_cons in Hin as [?|Hin]; [done|].
    destruct (field_get f k) as [|s0] eqn:Hk; [by apply IH|].
    destruct (sanitize sf s0) as [s1|e] eqn:E0.
    + simpl. apply IH; [done|]. by rewrite field_get_set_other.
    + rewrite sanitize_throws in E0; [by injection E0 as <-|].
      intros Hp. apply (sanitize_ok_iff sf) in Hp as (q & Hq). congruence.
Qed.

(** C10. [sanitize] throws on every string that does not begin with word
    characters and a colon. A request in which [path], [from], [to] or
    [root] is such a string ends there: the handler's promise is rejected
    with that [TypeError], whatever the provider, the caller's groups and
    the adapters are, and nothing is invoked. *)
Theorem sanitize_partial_rejects_request
    sf methods V (w : world V) p endpoint ro ug f fl key s :
  ~ has_mount_prefix s ->
  sanitize sf s = Throw (TypeError_undefined "split")
  /\ (key ∈ path_keys -> field_get f key = JString s ->
      request sf methods V w p endpoint ro ug (Parsed f fl)
      = ([], Unhandled (TypeError_undefined "split"))).
Proof.
  intros Hs. split; [by apply sanitize_throws|].
  intros Hin Hget. unfold request. fold path_keys.
  by rewrite (sanitizeFields_throws sf path_keys f key s).
Qed.

Lemma unprefixed_paths :
  ~ has_mount_prefix "home" /\ ~ has_mount_prefix "my-mount:file".
Proof.
  split; intros (q & H)%(sanitize_ok_iff (fun s => s)); by vm_compute in H.
Qed.

(** A [readdir] of ["my-mount:file"] is rejected before anything else
    happens. *)
Lemma sanitize_partial_witness :
  sanitize sanitize_filename "my-mount:file" = Throw (TypeError_undefined "split")
  /\ request sanitize_filename example_methods string echo_world
       example_provider "readdir" (RoValue false) []
       (Parsed [("path", JString "my-mount:file")] [])
     = ([], Unhandled (TypeError_undefined "split")).
Proof.
  destruct (sanitize_partial_rejects_request sanitize_filename example_methods
              string echo_world example_provider "readdir" (RoValue false) []
              [("path", JString "my-mount:file")] [] "path" "my-mount:file"
              (proj2 unprefixed_paths)) as [H1 H2].
  split; [exact H1|]. apply H2; [|reflexivity].
  apply list_elem_of_here.
Defined.

(** ** The [sanitize-filename] package *)

Lemma string_filter_forall p s : string_forall p (string_filter p s) = true.
Proof.
  induction s as [|c s IH]; simpl; [done|].
  destruct (p c) eqn:Hc; simpl; [by rewrite Hc|done].
Qed.

Lemma string_filter_keeps (p q : ascii -> bool) s :
  string_forall q s = true -> string_forall q (string_filter p s) = true.
Proof.
  induction s as [|c s IH]; simpl; [done|].
  intros [Hc Hs]%andb_prop. destruct (p c); simpl; [by rewrite Hc, IH|by apply IH].
Qed.

Lemma strip_trailing_keeps q s :
  string_forall q s = true -> string_forall q (strip_trailing s) = true.
Proof.
  induction s as [|c s IH]; simpl; [done|].
  intros [Hc Hs]%andb_prop. destruct (_ && _); simpl; [done|by rewrite Hc, IH].
Qed.

Lemma truncate_keeps q n s :
  string_forall q s = true -> string_forall q (truncate n s) = true.
Proof.
  revert n. induction s as [|c s IH]; intros n; simpl; [done|].
  intros [Hc Hs]%andb_prop. destruct (Nat.leb _ n); simpl; [by rewrite Hc, IH|done].
Qed.

(** What the package returns holds no illegal and no control character. *)
Lemma sanitize_filename_safe s :
  string_forall (fun c => negb (illegal c) && negb (control c))
    (sanitize_filename s) = true.
Proof.
  unfold sanitize_filename.
  apply truncate_keeps, strip_trailing_keeps.
  set (s2 := string_filter _ (string_filter _ s)).
  assert (H2 : string_forall (fun c => negb (illegal c) && negb (control c)) s2 = true).
  { subst s2. generalize (string_filter (fun c => negb (illegal c)) s),
      (string_filter_forall (fun c => negb (illegal c)) s).
    intros t. induction t as [|c t IH]; simpl; [done|].
    intros [Hc Ht]%andb_prop.
    destruct (negb (control c)) eqn:Hk; simpl; [by rewrite Hc, Hk, IH|by apply IH]. }
  destruct (reserved s2); simpl; [done|]. by destruct (windowsReserved s2).
Qed.

Lemma sanitize_filename_lacks_slash s : lacks "/" (sanitize_filename s).
Proof.
  eapply string_forall_impl; [|apply sanitize_filename_safe].
  intros c [Hc _]%andb_prop.
  destruct (Ascii.eqb_spec c "/") as [->|]; [by vm_compute in Hc|done].
Qed.

Lemma sanitize_filename_one_line s :
  string_forall not_terminator (sanitize_filename s) = true.
Proof.
  eapply string_forall_impl; [|apply sanitize_filename_safe].
  intros c [_ Hc]%andb_prop.
  unfold not_terminator, is_line_terminator, control in *. simpl in *.
  apply negb_true_iff in Hc. apply negb_true_iff, orb_false_iff.
  apply orb_false_iff in Hc as [Hlow _]. apply N.leb_gt in Hlow.
  split; apply N.eqb_neq; lia.
Qed.

(** With the package, an ordinary path is sanitized once and for all. *)
Lemma sanitize_idempotent_witness :
  sanitize sanitize_filename "home://docs/../a?.txt" = Ok "home:/docs/a.txt"
  /\ sanitize sanitize_filename "home:/docs/a.txt" = Ok "home:/docs/a.txt".
Proof.
  assert (H : sanitize sanitize_filename "home://docs/../a?.txt"
              = Ok "home:/docs/a.txt") by (by vm_compute).
  split; [exact H|].
  refine (sanitize_idempotent_where_sanitizer_is sanitize_filename
            sanitize_filename_lacks_slash sanitize_filename_one_line _ _ H _).
  intros y Hy. vm_compute in Hy.
  repeat (apply elem_of_cons in Hy as [->|Hy]; [by vm_compute|]).
  by apply elem_of_nil in Hy.
Defined.

(** C9 (as stated) fails with the package the module uses: the name
    ["con ."] loses its final space and dot in the last replacement, after
    the test for reserved names, and what is left is a reserved name. *)
Lemma sanitize_twice_differs :
  sanitize sanitize_filename "a:con ." = Ok "a:con"
  /\ sanitize sanitize_filename "a:con" = Ok "a:"
  /\ ~ (forall p q, sanitize sanitize_filename p = Ok q ->
                    sanitize sanitize_filename q = Ok q).
Proof.
  assert (H1 : sanitize sanitize_filename "a:con ." = Ok "a:con") by (by vm_compute).
  assert (H2 : sanitize sanitize_filename "a:con" = Ok "a:") by (by vm_compute).
  split; [done|]. split; [done|].
  intros H. specialize (H _ _ H1). rewrite H2 in H. discriminate.
Qed.

(** * Further properties *)

(** ** What [sanitize] returns *)

Lemma word_not_colon c : is_word c = true -> negb (Ascii.eqb c ":") = true.
Proof.
  destruct (Ascii.eqb_spec c ":") as [->|]; [by vm_compute|done].
Qed.

Lemma single_slashes_cons c c' s :
  single_slashes (String c (String c' s))
  = negb (is_slash c && is_slash c') && single_slashes (String c' s).
Proof. reflexivity. Qed.

Lemma single_slashes_collapse s : single_slashes (collapse_slashes s) = true.
Proof.
  induction s as [|c s IH]; [done|].
  destruct s as [|c' s].
  - simpl. by destruct (is_slash c).
  - rewrite collapse_slashes_step.
    destruct (collapse_slashes_head c' s) as (t & Et).
    destruct (is_slash c) eqn:Hc, (is_slash c') eqn:Hc'; cbn [andb]; try done;
      rewrite Et in IH |- *; rewrite single_slashes_cons, Hc, Hc', IH; done.
Qed.

Lemma single_slashes_word_prefix n x :
  string_forall is_word n = true -> single_slashes x = true ->
  single_slashes (n +:+ String ":" x) = true.
Proof.
  intros Hn Hx. induction n as [|c n IH]; simpl in *.
  - by destruct x.
  - apply andb_prop in Hn as [Hc Hn]. rewrite (IH Hn), andb_true_r.
    rewrite (word_not_slash c Hc). by destruct (n +:+ String ":" x).
Qed.

Section SanitizeResults.

Variable sanitizeFilename : string -> string.

Local Abbreviation sanitize' := (sanitize sanitizeFilename).

Lemma sanitize_ok_inv p q :
  sanitize' p = Ok q ->
  exists n x rest,
    p = n +:+ ":" +:+ rest
    /\ n <> "" /\ string_forall is_word n = true
    /\ match_mount_path (collapse_slashes p) = Some (n, x)
    /\ q = n +:+ ":" +:+
           collapse_slashes (join "/" (map sanitizeFilename (split "/" x))).
Proof.
  unfold sanitize. intros H.
  destruct (match_mount_path (collapse_slashes p)) as [[n x]|] eqn:E; [|done].
  injection H as <-.
  destruct (match_mount_path_inv _ _ _ E) as (Hn & Hw & _ & rest & Ec).
  apply collapse_slashes_prefix_inv in Ec as (r' & ->); [|done].
  by exists n, x, r'.
Qed.

(** X1. A sanitized path names the mountpoint the given path names: its
    prefix is the prefix of the given path, non-empty and made of word
    characters, and [sanitize] is defined on it again. *)
Theorem sanitize_keeps_prefix p q :
  sanitize' p = Ok q ->
  getPrefix (JString q) = getPrefix (JString p)
  /\ getPrefix (JString q) <> ""
  /\ string_forall is_word (getPrefix (JString q)) = true
  /\ exists q', sanitize' q = Ok q'.
Proof.
  intros H. destruct (sanitize_ok_inv p q H) as (n & x & rest & -> & Hn & Hw & _ & ->).
  assert (Hc : lacks ":" n).
  { eapply string_forall_impl; [|exact Hw]. apply word_not_colon. }
  rewrite !getPrefix_before_colon by done.
  split; [done|]. split; [done|]. split; [done|].
  apply sanitize_ok_iff. by eexists n, _.
Qed.

(** X2. A sanitized path has no two slashes in a row, whatever the filename
    sanitizer returns. *)
Theorem sanitize_single_slashes p q :
  sanitize' p = Ok q -> single_slashes q = true.
Proof.
  intros H. destruct (sanitize_ok_inv p q H) as (n & x & rest & _ & _ & Hw & _ & ->).
  change (":" +:+ ?y) with (String ":" y).
  apply single_slashes_word_prefix; [done|]. apply single_slashes_collapse.
Qed.

(** X3. When the filename sanitizer returns no slash, every segment of the
    path part of a sanitized path is what the filename sanitizer returned
    for a segment of the given path: nothing reaches the result
    unsanitized. *)
Theorem sanitize_segments_are_sanitized p q :
  (forall s, lacks "/" (sanitizeFilename s)) ->
  sanitize' p = Ok q ->
  exists sane,
    q = getPrefix (JString p) +:+ ":" +:+ sane
    /\ forall u, u ∈ split "/" sane ->
         exists y, y ∈ path_segments p /\ u = sanitizeFilename y.
Proof.
  intros Hslash H.
  destruct (sanitize_ok_inv p q H) as (n & x & rest & -> & Hn & Hw & E & ->).
  assert (Hc : lacks ":" n).
  { eapply string_forall_impl; [|exact Hw]. apply word_not_colon. }
  rewrite getPrefix_before_colon by done. eexists. split; [done|].
  intros u Hu. unfold path_segments. rewrite E.
  set (ts := map sanitizeFilename (split "/" x)) in *.
  apply (split_collapse_slashes_subseteq (join "/" ts)) in Hu.
  rewrite split_join in Hu.
  - apply list_elem_of_fmap in Hu as (y & -> & Hy). by exists y.
  - unfold ts. by destruct (split_is_cons "/" x) as (y & l & ->).
  - apply Forall_forall. intros v (y & -> & _)%list_elem_of_fmap. apply Hslash.
Qed.

End SanitizeResults.

(** The path ["home://a/../b"] keeps its prefix and loses the doubled slash
    and the [..]. *)
Lemma sanitize_keeps_prefix_witness :
  getPrefix (JString "home:/a/b") = getPrefix (JString "home://a/../b").
Proof.
  apply (sanitize_keeps_prefix sanitize_filename "home://a/../b" "home:/a/b").
  by vm_compute.
Defined.

Lemma sanitize_single_slashes_witness : single_slashes "home:/a/b" = true.
Proof.
  apply (sanitize_single_slashes sanitize_filename "home://a/../b" "home:/a/b").
  by vm_compute.
Defined.

Lemma sanitize_segments_witness :
  exists sane,
    "home:/a/b" = getPrefix (JString "home://a/../b") +:+ ":" +:+ sane
    /\ forall u, u ∈ split "/" sane ->
         exists y, y ∈ path_segments "home://a/../b" /\ u = sanitize_filename y.
Proof.
  apply (sanitize_segments_are_sanitized sanitize_filename
           "home://a/../b" "home:/a/b" sanitize_filename_lacks_slash).
  by vm_compute.
Defined.

(** ** [getPrefix], [validateGroups] and [resolveMountpoint] *)

(** X4. The prefix of a prefix is that prefix: what [getPrefix] returns
    holds no colon, so taking the prefix again changes nothing. *)
Theorem getPrefix_idempotent (v : jsval) :
  lacks ":" (getPrefix v)
  /\ getPrefix (JString (getPrefix v)) = getPrefix v.
Proof.
  split; [apply getPrefix_lacks|]. apply getPrefix_lacking, getPrefix_lacks.
Qed.

(** X5. A caller admitted with some groups is admitted with any larger list
    of groups; order and repetition in the list do not matter. *)
Theorem validateGroups_monotone
    (userGroups userGroups' : list string) (method : string) (m : mountpoint) :
  userGroups ⊆ userGroups' ->
  validateGroups userGroups method m = true ->
  validateGroups userGroups' method m = true.
Proof.
  intros Hsub. rewrite !validateGroups_unfold, !andb_true_iff.
  intros [Hn Hm]. split.
  - apply all_spec. intros g Hg. apply Hsub. by apply (proj1 (all_spec _ _) Hn).
  - destruct (List.find _ _) as [e|]; [|done].
    apply all_spec. intros g Hg. apply Hsub. by apply (proj1 (all_spec _ _) Hm).
Qed.

Lemma validateGroups_monotone_witness :
  validateGroups ["editors"; "guests"; "users"] "writefile" cloud_mount = true.
Proof.
  apply (validateGroups_monotone ["users"; "editors"]
           ["editors"; "guests"; "users"] "writefile" cloud_mount).
  - intros g Hg. repeat (apply elem_of_cons in Hg as [->|Hg]; [set_solver|]).
    by apply elem_of_nil in Hg.
  - by vm_compute.
Defined.

Lemma find_app_some {A} (f : A -> bool) l1 l2 x :
  List.find f l1 = Some x -> List.find f (l1 ++ l2)%list = Some x.
Proof.
  induction l1 as [|y l1 IH]; simpl; [done|]. by destruct (f y).
Qed.

(** X6. Only the first mapping entry that has the method as a key counts
    for it: once the groups hold such an entry, a further mapping entry
    added behind changes nothing for that method. *)
Theorem validateGroups_first_entry_shadows
    (userGroups : list string) (method : string) (m : mountpoint)
    (extra : gmap string (list string)) (e : group_entry) :
  List.find (has_method method) (mount_groups m) = Some e ->
  validateGroups userGroups method
    (Mountpoint (mount_name m) (mount_adapter m)
       (mount_groups m ++ [GroupMap extra])%list (mount_readOnly m))
  = validateGroups userGroups method m.
Proof.
  intros F. rewrite !validateGroups_unfold. simpl.
  rewrite (find_app_some _ _ [GroupMap extra] _ F), F.
  rewrite omap_app. simpl. by rewrite app_nil_r.
Qed.

(** A second entry for [writefile] that asks for [admins] is not looked at. *)
Lemma validateGroups_shadow_witness :
  validateGroups ["users"; "editors"] "writefile"
    (Mountpoint "cloud" (Some "cloud")
       [GroupName "users"; GroupMap {[ "writefile" := ["editors"] ]};
        GroupMap {[ "writefile" := ["admins"] ]}] false)
  = validateGroups ["users"; "editors"] "writefile" cloud_mount.
Proof.
  exact (validateGroups_first_entry_shadows ["users"; "editors"] "writefile"
           cloud_mount {[ "writefile" := ["admins"] ]}
           (GroupMap {[ "writefile" := ["editors"] ]}) eq_refl).
Defined.

(** X7. What [resolveMountpoint] returns is sound: the mountpoint is one of
    the registry, named by the prefix of the first known field; the adapter
    is the one [getAdapter] gives for it; the endpoint has a handler and is
    a method of that adapter; the caller passes the group check for the
    endpoint and the read-only check does not block. *)
Theorem resolveMountpoint_sound methods p endpoint f ug ro a m :
  resolveMountpoint methods p endpoint f ug ro = Ok (a, m) ->
  m ∈ mountpoints p
  /\ mount_name m = resolved_prefix f
  /\ resolved_prefix f <> ""
  /\ getAdapter p m = Some a
  /\ endpoint ∈ methods
  /\ endpoint ∈ adapter_methods a
  /\ validateGroups ug endpoint m = true
  /\ checkReadOnly ro m f = false.
Proof.
  intros (Hm & Hro & Hg & He & Ha & Hma)%resolve_ok_inv.
  unfold resolved_mount in Hm.
  destruct (String.eqb_spec (resolved_prefix f) "") as [|Hne]; [done|].
  simpl in Hm. apply find_some in Hm as [Hin Hn].
  apply String.eqb_eq in Hn. apply list_elem_of_In in Hin. done.
Qed.

Lemma resolveMountpoint_sound_witness :
  cloud_mount ∈ mountpoints example_provider
  /\ mount_name cloud_mount = resolved_prefix [("path", JString "cloud:/a.txt")]
  /\ resolved_prefix [("path", JString "cloud:/a.txt")] <> ""
  /\ getAdapter example_provider cloud_mount = Some cloud_adapter
  /\ "writefile" ∈ example_methods
  /\ "writefile" ∈ adapter_methods cloud_adapter
  /\ validateGroups ["users"; "editors"] "writefile" cloud_mount = true
  /\ checkReadOnly (RoValue true) cloud_mount [("path", JString "cloud:/a.txt")] = false.
Proof.
  apply (resolveMountpoint_sound example_methods example_provider "writefile"
           [("path", JString "cloud:/a.txt")] ["users"; "editors"] (RoValue true)).
  by vm_compute.
Defined.

Lemma find_known_none (f : fields) :
  Forall (fun kv => fst kv ∉ known) f ->
  List.find (fun key => bool_decide (key ∈ known)) (map fst f) = None.
Proof.
  induction 1 as [|[k v] f Hk _ IH]; [done|]. simpl in *.
  by rewrite bool_decide_eq_false_2.
Qed.

Lemma field_get_absent (f : fields) key :
  Forall (fun kv => fst kv <> key) f -> field_get f key = JUndefined.
Proof.
  induction 1 as [|[k v] f Hk _ IH]; [done|]. simpl in *.
  by destruct (String.eqb_spec k key).
Qed.

(** X8. Fields that hold none of [path], [from] and [root] (and no field
    called [undefined]) are resolved as the path ["undefined"]: the
    resolution fails with "Mountpoint not found for 'undefined'" unless a
    mountpoint bears that very name. *)
Theorem resolveMountpoint_without_known_field methods p endpoint f ug ro :
  Forall (fun kv => fst kv ∉ known) f ->
  Forall (fun kv => fst kv <> "undefined") f ->
  resolved_prefix f = "undefined"
  /\ (resolveMountpoint methods p endpoint f ug ro
        = Throw (VFSError "Mountpoint not found for 'undefined'" 403)
      <-> Forall (fun m => mount_name m <> "undefined") (mountpoints p)).
Proof.
  intros Hk Hu.
  assert (E : resolved_prefix f = "undefined").
  { unfold resolved_prefix. rewrite (find_known_none f Hk). simpl.
    by rewrite (field_get_absent f "undefined" Hu). }
  split; [done|].
  pose proof (resolve_not_found methods p endpoint f ug ro) as R.
  pose proof (resolved_mount_none p f) as N. rewrite E in R, N.
  change ("Mountpoint not found for '" +:+ "undefined" +:+ "'")
    with "Mountpoint not found for 'undefined'" in R.
  rewrite R, N. split; [|by right]. by intros [?|?].
Qed.

Lemma resolveMountpoint_without_known_field_witness :
  resolveMountpoint example_methods example_provider "writefile"
    [("to", JString "home:/a")] [] (RoValue true)
  = Throw (VFSError "Mountpoint not found for 'undefined'" 403).
Proof.
  apply (resolveMountpoint_without_known_field example_methods example_provider
           "writefile" [("to", JString "home:/a")] [] (RoValue true)).
  - constructor; [|constructor]. simpl.
    apply (bool_decide_eq_false_1 ("to" ∈ known)). by vm_compute.
  - by repeat constructor.
  - by repeat constructor.
Defined.

(** ** The sanitizing loop *)

Lemma field_set_keys f k v : map fst (field_set f k v) = map fst f.
Proof.
  induction f as [|[k0 u] f IH]; [done|]. simpl.
  destruct (String.eqb k0 k); simpl; [done|by rewrite IH].
Qed.

Lemma field_get_set_same f k s v :
  field_get f k = JString s -> field_get (field_set f k v) k = v.
Proof.
  induction f as [|[k0 u] f IH]; [done|]. simpl.
  destruct (String.eqb k0 k) eqn:E; simpl; rewrite E; [done|apply IH].
Qed.

Lemma sanitizeFields_spec sf keys f0 f :
  NoDup keys ->
  sanitizeFields sf keys f0 = Ok f ->
  map fst f = map fst f0
  /\ forall k,
       (k ∉ keys -> field_get f k = field_get f0 k)
       /\ (k ∈ keys ->
           match field_get f0 k with
           | JUndefined => field_get f k = JUndefined
           | JString s => exists s', sanitize sf s = Ok s' /\ field_get f k = JString s'
           end).
Proof.
  intros Hnd. revert f0. induction Hnd as [|key keys Hnotin Hnd IH]; intros f0.
  - simpl. intros [= <-]. split; [done|]. intros k. split; [done|].
    by intros ?%elem_of_nil.
  - simpl. destruct (field_get f0 key) as [|s] eqn:Hkey.
    + intros H. destruct (IH f0 H) as [Hkeys Hk]. split; [done|].
      intros k. split.
      * intros Hn. apply Hk. intros ?. apply Hn. by apply list_elem_of_further.
      * intros [->|Hin]%elem_of_cons; [|by apply Hk].
        rewrite Hkey. rewrite <- Hkey. by apply Hk.
    + destruct (sanitize sf s) as [s'|e] eqn:Hs; [|done]. simpl.
      intros H. destruct (IH _ H) as [Hkeys Hk]. split.
      { by rewrite Hkeys, field_set_keys. }
      intros k. destruct (decide (k = key)) as [->|Hne].
      * split; [intros Hn; exfalso; apply Hn, list_elem_of_here|].
        intros _. rewrite Hkey. exists s'. split; [done|].
        rewrite (proj1 (Hk key) Hnotin). by eapply field_get_set_same.
      * rewrite <- (field_get_set_other f0 key k (JString s')) by done. split.
        -- intros Hn. apply Hk. intros ?. apply Hn. by apply list_elem_of_further.
        -- intros [?|Hin]%elem_of_cons; [done|]. by apply Hk.
Qed.

Lemma path_keys_nodup : NoDup path_keys.
Proof. apply (bool_decide_eq_true_1 (NoDup path_keys)). by vm_compute. Qed.

(** X9. When the sanitizing loop of [request] ends without a throw, the
    fields have the same keys in the same order; every field other than
    [path], [from], [to] and [root] is untouched; an absent one of these
    four stays absent, and a present one holds [sanitize] of what it held. *)
Theorem sanitizeFields_touches_paths_only sf f0 f :
  sanitizeFields sf path_keys f0 = Ok f ->
  map fst f = map fst f0
  /\ forall k,
       (k ∉ path_keys -> field_get f k = field_get f0 k)
       /\ (k ∈ path_keys ->
           match field_get f0 k with
           | JUndefined => field_get f k = JUndefined
           | JString s => exists s', sanitize sf s = Ok s' /\ field_get f k = JString s'
           end).
Proof.
  apply sanitizeFields_spec, path_keys_nodup.
Qed.

Lemma sanitizeFields_witness :
  map fst [("from", JString "home:/a/b"); ("mode", JString "x//y")]
  = map fst [("from", JString "home://a/../b"); ("mode", JString "x//y")].
Proof.
  apply (sanitizeFields_touches_paths_only sanitize_filename
           [("from", JString "home://a/../b"); ("mode", JString "x//y")]
           [("from", JString "home:/a/b"); ("mode", JString "x//y")]).
  by vm_compute.
Defined.

(** ** The course of a request *)

Section RequestCourse.

Variable sanitizeFilename : string -> string.
Variable methods : gset string.
Variable V : Type.
Variable w : world V.

Local Abbreviation request' := (request sanitizeFilename methods V w).
Local Abbreviation dispatch' := (dispatch methods V w).
Local Abbreviation sanitizeFields' := (sanitizeFields sanitizeFilename).
Local Abbreviation resolve' := (resolveMountpoint methods).
Local Abbreviation single endpoint f fl target :=
  (and_then (invoke V w endpoint f fl target) (fun v => fulfil (JValue v))).
Local Abbreviation refused e :=
  (@Responded V (ErrorJson (ErrorResponse 400 (error_toString (new_Error e))))).

Lemma dispatch_simple p endpoint ro ug f fl :
  is_composite endpoint = false ->
  dispatch' p endpoint ro ug f fl
  = (target ← resolve' p endpoint f ug ro; Ok (single endpoint f fl target)).
Proof. intros Hc. unfold dispatch. by rewrite Hc. Qed.

Lemma dispatch_ok_cases p endpoint ro ug f fl pr :
  dispatch' p endpoint ro ug f fl = Ok pr ->
  (exists target,
     resolve' p endpoint f ug ro = Ok target /\ pr = single endpoint f fl target)
  \/ (is_composite endpoint = true
      /\ exists src dst,
           resolve' p "readfile" [("path", field_get f "from")] ug (RoValue false)
             = Ok src
           /\ resolve' p "writefile" [("path", field_get f "to")] ug (RoValue true)
              = Ok dst
           /\ mount_adapter (snd src) <> mount_adapter (snd dst)
           /\ pr = transfer V w endpoint f src dst).
Proof.
  destruct (is_composite endpoint) eqn:Hc.
  - destruct (resolve' p "readfile" [("path", field_get f "from")] ug (RoValue false))
      as [src|e] eqn:Hs; [|by unfold dispatch; rewrite Hc, Hs].
    destruct (resolve' p "writefile" [("path", field_get f "to")] ug (RoValue true))
      as [dst|e] eqn:Hd; [|by unfold dispatch; rewrite Hc, Hs, Hd].
    rewrite (dispatch_composite _ _ _ _ _ _ _ _ _ _ _ Hc Hs Hd).
    case_bool_decide as E.
    + destruct (resolve' p endpoint f ug ro) as [target|e]; [|done].
      intros [= <-]. left. by exists target.
    + intros [= <-]. right. split; [done|]. by exists src, dst.
  - rewrite dispatch_simple by done.
    destruct (resolve' p endpoint f ug ro) as [target|e]; [|done].
    intros [= <-]. left. by exists target.
Qed.

Lemma request_single p endpoint ro ug f0 fl f target :
  sanitizeFields' path_keys f0 = Ok f ->
  dispatch' p endpoint ro ug f fl = Ok (single endpoint f fl target) ->
  request' p endpoint ro ug (Parsed f0 fl) = single_course w endpoint f fl target.
Proof.
  intros Hf Hd. unfold request, single_course. rewrite Hf, Hd.
  unfold and_then, invoke, fulfil, cleanup, failed. simpl.
  by destruct (w [] _).
Qed.

Lemma transfer_course_events endpoint f src dst ev :
  ev ∈ fst (transfer_course w endpoint f src dst) ->
  ev = Invoke (read_call f src)
  \/ (exists ab, ev = Invoke (write_call f dst ab))
  \/ (ev = Invoke (unlink_call f src) /\ endpoint = "rename").
Proof.
  unfold transfer_course.
  destruct (w [] _) as [ab|e]; simpl.
  2:{ rewrite list_elem_of_singleton. intros ->. by left. }
  destruct (w [_] _) as [r|e]; simpl.
  2:{ rewrite !elem_of_cons, elem_of_nil. intros [->|[->|[]]]; [by left|].
      right. left. by exists ab. }
  destruct (String.eqb_spec endpoint "rename") as [->|]; simpl.
  - assert (Hl : ev ∈ [Invoke (read_call f src); Invoke (write_call f dst ab);
                        Invoke (unlink_call f src)] ->
              ev = Invoke (read_call f src)
              \/ (exists ab, ev = Invoke (write_call f dst ab))
              \/ (ev = Invoke (unlink_call f src) /\ "rename" = "rename")).
    { rewrite !elem_of_cons, elem_of_nil. intros [->|[->|[->|[]]]];
        [by left|right; left; by exists ab|by right; right]. }
    by destruct (w [_; _] _).
  - rewrite !elem_of_cons, elem_of_nil. intros [->|[->|[]]]; [by left|].
    right. left. by exists ab.
Qed.

Lemma request_events p endpoint ro ug input ev :
  ev ∈ fst (request' p endpoint ro ug input) ->
  (exists c, ev = Invoke c /\ cleared methods p ug endpoint c)
  \/ (exists f0 fl entry v,
        input = Parsed f0 fl /\ endpoint = "writefile" /\ entry ∈ fl
        /\ ev = FsUnlink (file_path (snd entry))
        /\ snd (request' p endpoint ro ug input) = Responded (Json (JValue v))).
Proof.
  destruct input as [f0 fl|e]; [|by intros ?%elem_of_nil].
  destruct (sanitizeFields' path_keys f0) as [f|e] eqn:Hf.
  2:{ unfold request. rewrite Hf. by intros ?%elem_of_nil. }
  destruct (dispatch' p endpoint ro ug f fl) as [pr|e] eqn:Hd.
  2:{ rewrite (request_thrown _ _ _ _ _ _ _ _ _ _ _ _ Hf Hd).
      by intros ?%elem_of_nil. }
  destruct (dispatch_ok_cases _ _ _ _ _ _ _ Hd)
    as [(target & Ht & ->)|(Hc & src & dst & Hs & Hd' & Hne & ->)].
  - rewrite (request_single _ _ _ _ _ _ _ _ Hf Hd). unfold single_course.
    assert (Hclear : cleared methods p ug endpoint
                       (Call endpoint f fl (fst target) (snd target))).
    { exists endpoint, f, ro. simpl. split; [by destruct target|by left]. }
    destruct (w [] _) as [v|e]; simpl.
    + rewrite elem_of_cons. intros [->|Hev]; [left; by eexists|].
      right. unfold cleanup in Hev.
      destruct (String.eqb_spec endpoint "writefile") as [->|];
        [|by apply elem_of_nil in Hev].
      apply list_elem_of_fmap in Hev as (entry & -> & Hin).
      by exists f0, fl, entry, v.
    + rewrite list_elem_of_singleton. intros ->. left. by eexists.
  - rewrite (request_transfer _ _ _ _ _ _ _ _ _ _ _ _ _ Hc Hf Hs Hd' Hne).
    intros Hev. apply transfer_course_events in Hev.
    destruct Hev as [->|[(ab & ->)|[-> ->]]]; left; eexists;
      (split; [done|]).
    + exists "readfile", [("path", field_get f "from")], (RoValue false).
      simpl. split; [by destruct src|by left].
    + exists "writefile", [("path", field_get f "to")], (RoValue true).
      simpl. split; [by destruct dst|by left].
    + exists "readfile", [("path", field_get f "from")], (RoValue false).
      simpl. split; [by destruct src|by right].
Qed.

(** X10. A request that is not a rename or copy, and whose fields resolve,
    is handed to the resolved adapter in one invocation, with the sanitized
    fields and the uploaded files. A fulfilled [readfile] is piped and any
    other fulfilled operation is sent as JSON, a [writefile] after its
    uploaded files are removed; a rejected one is answered with its error
    and removes nothing. *)
Theorem single_dispatch_course p endpoint ro ug f0 fl f target :
  is_composite endpoint = false ->
  sanitizeFields' path_keys f0 = Ok f ->
  resolve' p endpoint f ug ro = Ok target ->
  request' p endpoint ro ug (Parsed f0 fl) = single_course w endpoint f fl target.
Proof.
  intros Hc Hf Ht. apply request_single; [done|].
  rewrite dispatch_simple by done. by rewrite Ht.
Qed.

(** X11. When a resolution the request needs fails (the one of the request
    itself, that of the source or of the destination of a rename or copy,
    or the final one of a rename or copy inside one adapter), no adapter is
    invoked and the response has status 400 and the text of the error
    wrapped in [new Error], whatever code the error carries. *)
Theorem failed_resolution_invokes_nothing p endpoint ro ug f0 fl f e :
  sanitizeFields' path_keys f0 = Ok f ->
  (is_composite endpoint = false /\ resolve' p endpoint f ug ro = Throw e)
  \/ (is_composite endpoint = true
      /\ resolve' p "readfile" [("path", field_get f "from")] ug (RoValue false)
         = Throw e)
  \/ (is_composite endpoint = true
      /\ (exists src,
            resolve' p "readfile" [("path", field_get f "from")] ug (RoValue false)
            = Ok src)
      /\ resolve' p "writefile" [("path", field_get f "to")] ug (RoValue true)
         = Throw e)
  \/ (is_composite endpoint = true
      /\ (exists src dst,
            resolve' p "readfile" [("path", field_get f "from")] ug (RoValue false)
            = Ok src
            /\ resolve' p "writefile" [("path", field_get f "to")] ug (RoValue true)
               = Ok dst
            /\ mount_adapter (snd src) = mount_adapter (snd dst))
      /\ resolve' p endpoint f ug ro = Throw e) ->
  request' p endpoint ro ug (Parsed f0 fl) = ([], refused e).
Proof.
  intros Hf H. apply (request_thrown _ _ _ _ _ _ _ _ _ _ f); [done|].
  destruct H as [[Hc He]|[[Hc He]|[(Hc & [src Hs] & He)
                |(Hc & (src & dst & Hs & Hd & E) & He)]]].
  - rewrite dispatch_simple by done. by rewrite He.
  - unfold dispatch. by rewrite Hc, He.
  - unfold dispatch. by rewrite Hc, Hs, He.
  - rewrite (dispatch_composite _ _ _ _ _ _ _ _ _ _ _ Hc Hs Hd).
    rewrite bool_decide_eq_true_2 by done. by rewrite He.
Qed.

(** X12. Every handler a request invokes is invoked on an adapter and
    mountpoint that [resolveMountpoint] returned for the caller's groups
    under the name of the method invoked; the one exception is the
    [unlink] of a rename between adapters, invoked on the pair resolved for
    [readfile]. *)
Theorem invocations_are_cleared p endpoint ro ug input c :
  Invoke c ∈ fst (request' p endpoint ro ug input) ->
  cleared methods p ug endpoint c.
Proof.
  intros H. apply request_events in H.
  destruct H as [(c' & [= <-] & Hc)|(? & ? & ? & ? & _ & _ & _ & [=] & _)].
  done.
Qed.

(** X13. An uploaded file is removed only by a [writefile] that was
    fulfilled and is answered with its value: no other operation, and no
    failed [writefile], removes one. *)
Theorem uploads_removed_only_after_writefile p endpoint ro ug f0 fl path :
  FsUnlink path ∈ fst (request' p endpoint ro ug (Parsed f0 fl)) ->
  endpoint = "writefile"
  /\ (exists entry, entry ∈ fl /\ path = file_path (snd entry))
  /\ exists v, snd (request' p endpoint ro ug (Parsed f0 fl))
               = Responded (Json (JValue v)).
Proof.
  intros H. apply request_events in H.
  destruct H as [(c' & [=] & _)
                |(g0 & gl & entry & v & [= <- <-] & -> & Hin & [= ->] & Hr)].
  split; [done|]. split; [by exists entry|by exists v].
Qed.

(** X14. A rename between adapters whose read and write are fulfilled
    invokes [unlink] on the source, although the source was resolved for
    [readfile] only: also when the source mountpoint is read-only and the
    caller does not pass its group check for [unlink]. *)
Theorem rename_unlinks_unresolved_source p ro ug f0 fl f src dst ab r :
  sanitizeFields' path_keys f0 = Ok f ->
  resolve' p "readfile" [("path", field_get f "from")] ug (RoValue false) = Ok src ->
  resolve' p "writefile" [("path", field_get f "to")] ug (RoValue true) = Ok dst ->
  mount_adapter (snd src) <> mount_adapter (snd dst) ->
  mount_readOnly (snd src) = true ->
  validateGroups ug "unlink" (snd src) = false ->
  w [] (read_call f src) = Fulfilled ab ->
  w [Invoke (read_call f src)] (write_call f dst ab) = Fulfilled r ->
  Invoke (unlink_call f src) ∈ fst (request' p "rename" ro ug (Parsed f0 fl)).
Proof.
  intros Hf Hs Hd Hne _ _ Hr Hw.
  rewrite (request_transfer _ _ _ _ p "rename" ro ug f0 fl f src dst
             eq_refl Hf Hs Hd Hne).
  unfold transfer_course. rewrite Hr, Hw. simpl.
  destruct (w _ (unlink_call f src)); simpl;
    apply list_elem_of_further, list_elem_of_further, list_elem_of_here.
Qed.

(** X15. A rename or copy whose fields hold no [from] resolves its source
    as the path ["undefined"]: unless a mountpoint bears that name, nothing
    is invoked and the response is the error "Mountpoint not found for
    'undefined'" with status 400. *)
Theorem composite_without_from p endpoint ro ug f0 fl f :
  is_composite endpoint = true ->
  sanitizeFields' path_keys f0 = Ok f ->
  field_get f0 "from" = JUndefined ->
  Forall (fun m => mount_name m <> "undefined") (mountpoints p) ->
  request' p endpoint ro ug (Parsed f0 fl)
  = ([], Responded (ErrorJson (ErrorResponse 400
           "Error: Error: Mountpoint not found for 'undefined'"))).
Proof.
  intros Hc Hf Hfrom Hno.
  assert (Hu : field_get f "from" = JUndefined).
  { destruct (sanitizeFields_spec _ _ f0 f path_keys_nodup Hf) as [_ H].
    destruct (H "from") as [_ H']. rewrite Hfrom in H'. apply H'.
    apply list_elem_of_further, list_elem_of_here. }
  apply (request_thrown _ _ _ _ _ _ _ _ _ _ f
           (VFSError "Mountpoint not found for 'undefined'" 403)); [done|].
  unfold dispatch. rewrite Hc, Hu.
  assert (R : resolve' p "readfile" [("path", JUndefined)] ug (RoValue false)
              = Throw (VFSError "Mountpoint not found for 'undefined'" 403)).
  { apply (resolve_not_found methods p "readfile" [("path", JUndefined)] ug
             (RoValue false)).
    apply resolved_mount_none. by right. }
  by rewrite R.
Qed.

End RequestCourse.

(** A [readdir] of [home] by anyone: one invocation, answered as JSON. *)
Lemma single_dispatch_witness :
  request sanitize_filename example_methods string echo_world example_provider
    "readdir" (RoValue false) [] (Parsed [("path", JString "home://docs")] [])
  = ([Invoke (Call "readdir" [("path", JString "home:/docs")] []
                system_adapter home_mount)],
     Responded (Json (JValue "readdir"))).
Proof.
  refine (eq_trans
    (single_dispatch_course sanitize_filename example_methods string echo_world
       example_provider "readdir" (RoValue false) []
       [("path", JString "home://docs")] []
       [("path", JString "home:/docs")] (system_adapter, home_mount) _ _ _) _);
    vm_compute; reflexivity.
Defined.

(** A [readdir] of a mountpoint that does not exist. *)
Lemma failed_resolution_witness :
  request sanitize_filename example_methods string echo_world example_provider
    "readdir" (RoValue false) [] (Parsed [("path", JString "ghost:/x")] [])
  = ([], Responded (ErrorJson (ErrorResponse 400
           "Error: Error: Mountpoint not found for 'ghost'"))).
Proof.
  refine (failed_resolution_invokes_nothing sanitize_filename example_methods
            string echo_world example_provider "readdir" (RoValue false) []
            [("path", JString "ghost:/x")] [] [("path", JString "ghost:/x")]
            (VFSError "Mountpoint not found for 'ghost'" 403) _ _).
  - by vm_compute.
  - left. split; by vm_compute.
Defined.

(** The [writefile] of a rename from [home] to [cloud] is cleared for the
    caller. *)
Lemma invocations_cleared_witness :
  cleared example_methods example_provider ["users"; "editors"] "rename"
    (Call "writefile" [("path", JString "cloud:/y.txt")]
       [("upload", Buffer "readfile")] cloud_adapter cloud_mount).
Proof.
  apply (invocations_are_cleared sanitize_filename example_methods string
           echo_world example_provider "rename" (RoValue true)
           ["users"; "editors"]
           (Parsed [("from", JString "home:/x.txt"); ("to", JString "cloud:/y.txt")]
              [])).
  assert (E : fst (request sanitize_filename example_methods string echo_world
                     example_provider "rename" (RoValue true) ["users"; "editors"]
                     (Parsed [("from", JString "home:/x.txt");
                              ("to", JString "cloud:/y.txt")] []))
              = [Invoke (Call "readfile" [("path", JString "home:/x.txt")] []
                           system_adapter home_mount);
                 Invoke (Call "writefile" [("path", JString "cloud:/y.txt")]
                           [("upload", Buffer "readfile")] cloud_adapter cloud_mount);
                 Invoke (Call "unlink" [("path", JString "home:/x.txt")] []
                           system_adapter home_mount)])
    by (by vm_compute).
  rewrite E. apply list_elem_of_further, list_elem_of_here.
Defined.

(** The upload of a fulfilled [writefile] is removed. *)
Lemma uploads_removed_witness :
  "writefile" = "writefile"
  /\ (exists entry : string * file string,
        entry ∈ [("upload", TempFile "/tmp/u1")]
        /\ JString "/tmp/u1" = file_path (snd entry))
  /\ exists v,
       snd (request sanitize_filename example_methods string echo_world
              example_provider "writefile" (RoValue true) []
              (Parsed [("path", JString "home:/notes.txt")]
                 [("upload", TempFile "/tmp/u1")]))
       = Responded (Json (JValue v)).
Proof.
  apply (uploads_removed_only_after_writefile sanitize_filename example_methods
           string echo_world example_provider "writefile" (RoValue true) []
           [("path", JString "home:/notes.txt")] [("upload", TempFile "/tmp/u1")]
           (JString "/tmp/u1")).
  assert (E : fst (request sanitize_filename example_methods string echo_world
                     example_provider "writefile" (RoValue true) []
                     (Parsed [("path", JString "home:/notes.txt")]
                        [("upload", TempFile "/tmp/u1")]))
              = [Invoke (Call "writefile" [("path", JString "home:/notes.txt")]
                           [("upload", TempFile "/tmp/u1")] system_adapter home_mount);
                 FsUnlink (JString "/tmp/u1")])
    by (by vm_compute).
  rewrite E. apply list_elem_of_further, list_elem_of_here.
Defined.

(** A caller without groups renames a file out of the read-only [vault]:
    the file is unlinked there. *)
Lemma rename_unlinks_witness :
  Invoke (Call "unlink" [("path", JString "vault:/a")] [] cloud_adapter vault_mount)
  ∈ fst (request sanitize_filename example_methods string echo_world
           guarded_provider "rename" (RoValue true) []
           (Parsed [("from", JString "vault:/a"); ("to", JString "home:/a")] [])).
Proof.
  refine (rename_unlinks_unresolved_source sanitize_filename example_methods
            string echo_world guarded_provider (RoValue true) []
            [("from", JString "vault:/a"); ("to", JString "home:/a")] []
            [("from", JString "vault:/a"); ("to", JString "home:/a")]
            (cloud_adapter, vault_mount) (system_adapter, home_mount)
            "readfile" "writefile" _ _ _ _ _ _ _ _);
    try (vm_compute; reflexivity).
  simpl. discriminate.
Defined.

(** A rename that names only its destination. *)
Lemma composite_without_from_witness :
  request sanitize_filename example_methods string echo_world example_provider
    "rename" (RoValue true) [] (Parsed [("to", JString "home:/a")] [])
  = ([], Responded (ErrorJson (ErrorResponse 400
           "Error: Error: Mountpoint not found for 'undefined'"))).
Proof.
  refine (composite_without_from sanitize_filename example_methods string
            echo_world example_provider "rename" (RoValue true) []
            [("to", JString "home:/a")] [] [("to", JString "home:/a")] _ _ _ _);
    try (vm_compute; reflexivity).
  by repeat constructor.
Defined.
